(** * Verification of the [strict-comparisons] and [class-name-casing] rules

  Shallow embedding of
    - packages/eslint-plugin/src/rules/strict-comparisons.ts
    - packages/eslint-plugin/src/lib/rules/class-name-casing.ts
  and the properties their specification states about them. *)

From Stdlib Require Import ZArith List String Ascii Bool Lia.
Import ListNotations.

Local Open Scope Z_scope.

(* ================================================================= *)
(** ** The JavaScript built-ins the rules rely on *)
(* ================================================================= *)

Module JS.

(** A JavaScript number as the rule can observe it: the enum values are
    integers, and [Math.max] of no argument is [-Infinity]. *)
Inductive number : Type :=
| NegInfinity
| Int (z : Z).

Definition number_eqb (a b : number) : bool :=
  match a, b with
  | NegInfinity, NegInfinity => true
  | Int x, Int y => x =? y
  | _, _ => false
  end.

(** One step of [Math.max]: keep the larger of the running maximum and
    the next argument. *)
Definition max2 (highest : number) (x : Z) : number :=
  match highest with
  | NegInfinity => Int x
  | Int h => if h <? x then Int x else Int h
  end.

(** [Math.max.apply(Math, args)]: starts from [-Infinity] and scans the
    arguments left to right. *)
Definition Math_max (args : list Z) : number :=
  fold_left max2 args NegInfinity.

Section Arrays.
Context {A : Type} (eqb : A -> A -> bool).

(** [arr.indexOf(x)]: index of the first element strictly equal to
    [x], or [-1]. *)
Fixpoint indexOf_from (arr : list A) (x : A) (i : Z) : Z :=
  match arr with
  | [] => -1
  | y :: rest => if eqb y x then i else indexOf_from rest x (i + 1)
  end.

Definition indexOf (arr : list A) (x : A) : Z := indexOf_from arr x 0.

(** [new Set(arr)] followed by [Array.from]: the distinct elements in
    the order of their first occurrence. *)
Definition Set_add (s : list A) (x : A) : list A :=
  if existsb (eqb x) s then s else s ++ [x].

Definition Array_from_Set (arr : list A) : list A :=
  fold_left Set_add arr [].
End Arrays.

(** [arr.some(p)]. *)
Definition some {A : Type} (p : A -> bool) (arr : list A) : bool :=
  existsb p arr.

(** [arr.join(sep)]; an [undefined] element is printed as the empty
    string. *)
Fixpoint join (sep : string) (arr : list (option string)) : string :=
  match arr with
  | [] => EmptyString
  | x :: rest =>
      let s := match x with Some s => s | None => EmptyString end in
      match rest with
      | [] => s
      | _ :: _ => String.append s (String.append sep (join sep rest))
      end
  end.

End JS.

(* ================================================================= *)
(** ** strict-comparisons.ts *)
(* ================================================================= *)

Module StrictComparisons.
Import JS.

(** [const enum TypeKind], lines 61-69. *)
Inductive TypeKind : Type :=
| Any
| Number
| Enum
| String
| Boolean
| NullOrUndefined
| Object.

(** The number each member of the enum stands for at run time. *)
Definition TypeKind_value (k : TypeKind) : Z :=
  match k with
  | Any => 0
  | Number => 1
  | Enum => 2
  | String => 3
  | Boolean => 4
  | NullOrUndefined => 5
  | Object => 6
  end.

Definition all_kinds : list TypeKind :=
  [Any; Number; Enum; String; Boolean; NullOrUndefined; Object].

(** [a === b] on two enum members compares their numbers. *)
Definition TypeKind_eqb (a b : TypeKind) : bool :=
  TypeKind_value a =? TypeKind_value b.

(** The run-time number of a kind, as a JavaScript value. *)
Definition kind_number (k : TypeKind) : number := Int (TypeKind_value k).

(** [typeNames], lines 71-79: an object keyed by the enum's numbers. *)
Definition typeNames_table : list (Z * string) :=
  [ (TypeKind_value Any, "any"%string);
    (TypeKind_value Number, "number"%string);
    (TypeKind_value Enum, "enum"%string);
    (TypeKind_value String, "string"%string);
    (TypeKind_value Boolean, "boolean"%string);
    (TypeKind_value NullOrUndefined, "null | undefined"%string);
    (TypeKind_value Object, "object"%string) ].

Fixpoint lookup (tbl : list (Z * string)) (key : Z) : option string :=
  match tbl with
  | [] => None
  | (k, v) :: rest => if k =? key then Some v else lookup rest key
  end.

(** [typeNames[v]]; a key that is not in the object reads [undefined]. *)
Definition typeNames (v : number) : option string :=
  match v with
  | NegInfinity => None
  | Int z => lookup typeNames_table z
  end.

(** [arrayContainsKind], lines 158-163. *)
Definition arrayContainsKind (types : list TypeKind) (typeToCheck : TypeKind)
  : bool :=
  some (fun type => TypeKind_eqb type typeToCheck) types.

(** [getStrictestKind], lines 169-172. *)
Definition getStrictestKind (types : list TypeKind) : number :=
  Math_max (map TypeKind_value types).

(** [getStrictestComparableType], lines 121-151; [None] is [undefined]. *)
Definition getStrictestComparableType (typesLeft typesRight : list TypeKind)
  : option number :=
  let overlappingTypes :=
    filter (fun type => indexOf TypeKind_eqb typesRight type >=? 0) typesLeft in
  if Z.of_nat (List.length overlappingTypes) >? 0 then
    Some (getStrictestKind overlappingTypes)
  else if arrayContainsKind typesLeft Any then
    Some (getStrictestKind typesRight)
  else if arrayContainsKind typesRight Any then
    Some (getStrictestKind typesLeft)
  else if (arrayContainsKind typesLeft NullOrUndefined
           && arrayContainsKind typesRight Object)
          || (arrayContainsKind typesRight NullOrUndefined
              && arrayContainsKind typesLeft Object) then
    Some (kind_number Object)
  else None.

(** The array that lines 125-127 compute. *)
Definition overlappingTypes (typesLeft typesRight : list TypeKind)
  : list TypeKind :=
  filter (fun type => indexOf TypeKind_eqb typesRight type >=? 0) typesLeft.

(** [isEqualityOperator], lines 197-207. *)
Definition isEqualityOperator (operator : string) : bool :=
  if String.eqb operator "==" then true
  else if String.eqb operator "!=" then true
  else if String.eqb operator "===" then true
  else if String.eqb operator "!==" then true
  else false.

(** [isComparisonOperator], lines 178-191. *)
Definition isComparisonOperator (operator : string) : bool :=
  if isEqualityOperator operator then true
  else if String.eqb operator "<" then true
  else if String.eqb operator ">" then true
  else if String.eqb operator "<=" then true
  else if String.eqb operator ">=" then true
  else false.

(** *** TypeScript's types, as far as the rule looks at them *)

(** [ts.TypeFlags]: the bit masks come from the TypeScript compiler, which
    is not part of this repository.  Their values are left open; every
    result below holds whatever they are.  [Z.land] and [Z.lor] are the
    JavaScript [&] and [|] on 32-bit flag words. *)
Record TypeFlags : Type := mkTypeFlags {
  TypeFlags_Any : Z;
  TypeFlags_String : Z;
  TypeFlags_Number : Z;
  TypeFlags_StringLiteral : Z;
  TypeFlags_NumberLiteral : Z;
  TypeFlags_BooleanLike : Z;
  TypeFlags_Void : Z;
  TypeFlags_Undefined : Z;
  TypeFlags_Null : Z;
  TypeFlags_Union : Z
}.

(** [ts.Type]: its [flags] word and, for a union, its constituent
    [types] (never read on a type that is not a union). *)
#[warnings="-register-all"] Inductive tsType : Type :=
| mkType (flags : Z) (types : list tsType).

Definition flags (type : tsType) : Z :=
  match type with mkType f _ => f end.

Definition types (type : tsType) : list tsType :=
  match type with mkType _ ts => ts end.

(** [isTypeFlagSet] of tsutils: [(type.flags & flag) !== 0]. *)
Definition isTypeFlagSet (type : tsType) (flag : Z) : bool :=
  negb (Z.land (flags type) flag =? 0).

(** *** The rule's reports and the calls it makes to its collaborators *)

Inductive MessageIds : Type :=
| nonComparableTypes
| invalidTypeForOperator.

(** The rule's options, lines 7-10. *)
Record Config : Type := mkConfig {
  allowObjectEqualComparison : bool;
  allowStringOrderComparison : bool
}.

Section create.

(** What [create] closes over: the TypeScript flag masks, the options,
    the syntax nodes of the operands and the type checker's answer for
    each of them. *)
Variable ts : TypeFlags.
Variable options : Config.
Variable Expr : Type.
Variable typeAtLocation : Expr -> tsType.

(** [TSESTree.BinaryExpression], as far as the rule reads it. *)
Record BinaryExpressionNode : Type := mkBinaryExpression {
  operator : string;
  left : Expr;
  right : Expr
}.

(** The argument of [context.report]; [data] is the object literal,
    key by key, a value being a string or [undefined]. *)
Record ReportDescriptor : Type := mkReport {
  node : BinaryExpressionNode;
  messageId : MessageIds;
  data : list (string * option string)
}.

(** A call the rule makes to a collaborator: a question to the type
    checker or a report. *)
Inductive Call : Type :=
| getTypeAtLocation (e : Expr)
| context_report (d : ReportDescriptor).

(** Computations that log their calls, in order. *)
Definition M (A : Type) : Type := (A * list Call)%type.

Definition ret {A : Type} (a : A) : M A := (a, []).

Definition bind {A B : Type} (m : M A) (k : A -> M B) : M B :=
  let (a, log1) := m in
  let (b, log2) := k a in
  (b, log1 ++ log2).

Definition call (c : Call) : M unit := (tt, [c]).

Notation "x <- m ;; k" := (bind m (fun x => k))
  (at level 61, m at next level, right associativity).

(** [isUnionType] of tsutils: the [Union] flag is set. *)
Definition isUnionType (type : tsType) : bool :=
  isTypeFlagSet type (TypeFlags_Union ts).

(** [getKind], lines 96-114. *)
Definition getKind (type : tsType) : TypeKind :=
  let is_ := fun flags => isTypeFlagSet type flags in
  if is_ (Z.lor (TypeFlags_String ts) (TypeFlags_StringLiteral ts)) then String
  else if is_ (Z.lor (TypeFlags_Number ts) (TypeFlags_NumberLiteral ts)) then Number
  else if is_ (TypeFlags_BooleanLike ts) then Boolean
  else if is_ (Z.lor (Z.lor (TypeFlags_Null ts) (TypeFlags_Undefined ts))
                    (TypeFlags_Void ts)) then NullOrUndefined
  else if is_ (TypeFlags_Any ts) then Any
  else Object.

(** [getKinds], lines 85-89. *)
Definition getKinds (type : tsType) : list TypeKind :=
  if isUnionType type
  then Array_from_Set TypeKind_eqb (map getKind (types type))
  else [getKind type].

(** [getNodeType], lines 213-216. *)
Definition getNodeType (n : Expr) : M tsType :=
  _ <- call (getTypeAtLocation n) ;;
  ret (typeAtLocation n).

(** The report of lines 254-261, 265-272, 284-291 and 295-302. *)
Definition report_invalidTypeForOperator
    (n : BinaryExpressionNode) (operandKind : number) : M unit :=
  call (context_report
          {| node := n;
             messageId := invalidTypeForOperator;
             data := [ ("comparator"%string, Some (operator n));
                       ("type"%string, typeNames operandKind) ] |}).

(** [case k:] of a [switch (operandKind)]. *)
Definition is_case (operandKind : number) (k : TypeKind) : bool :=
  number_eqb operandKind (kind_number k).

(** Lines 239-304: what [BinaryExpression] does once [operandKind] is
    not [undefined]. *)
Definition checkOperandKind
    (n : BinaryExpressionNode) (operandKind : number) : M unit :=
  let isEquality := isEqualityOperator (operator n) in
  if isEquality then
    if is_case operandKind Any || is_case operandKind Number
       || is_case operandKind Enum || is_case operandKind String
       || is_case operandKind Boolean
    then ret tt
    else if is_case operandKind NullOrUndefined || is_case operandKind Object
    then
      if allowObjectEqualComparison options then ret tt
      else report_invalidTypeForOperator n operandKind
    else report_invalidTypeForOperator n operandKind
  else
    if is_case operandKind Any || is_case operandKind Number
    then ret tt
    else if is_case operandKind String
    then
      if allowStringOrderComparison options then ret tt
      else report_invalidTypeForOperator n operandKind
    else report_invalidTypeForOperator n operandKind.

(** The [BinaryExpression] listener, lines 219-307. *)
Definition BinaryExpression (n : BinaryExpressionNode) : M unit :=
  if isComparisonOperator (operator n) then
    leftType <- getNodeType (left n) ;;
    rightType <- getNodeType (right n) ;;
    let leftKinds := getKinds leftType in
    let rightKinds := getKinds rightType in
    let operandKind := getStrictestComparableType leftKinds rightKinds in
    match operandKind with
    | None =>
        call (context_report
                {| node := n;
                   messageId := nonComparableTypes;
                   data :=
                     [ ("typesLeft"%string,
                        Some (join " | "
                                (map (fun type => typeNames (kind_number type))
                                     leftKinds)));
                       ("typesRight"%string,
                        Some (join " | "
                                (map (fun type => typeNames (kind_number type))
                                     rightKinds))) ] |})
    | Some operandKind => checkOperandKind n operandKind
    end
  else ret tt.

(** The reports among the calls of a run, in order. *)
Fixpoint reports (log : list Call) : list ReportDescriptor :=
  match log with
  | [] => []
  | getTypeAtLocation _ :: rest => reports rest
  | context_report d :: rest => d :: reports rest
  end.

End create.

Arguments mkBinaryExpression {Expr}.
Arguments operator {Expr}.
Arguments left {Expr}.
Arguments right {Expr}.
Arguments mkReport {Expr}.
Arguments node {Expr}.
Arguments messageId {Expr}.
Arguments data {Expr}.
Arguments getTypeAtLocation {Expr}.
Arguments context_report {Expr}.
Arguments reports {Expr}.
Arguments M Expr A : clear implicits.
Arguments ret {Expr A}.
Arguments bind {Expr A B}.
Arguments call {Expr}.
Arguments getNodeType {Expr}.
Arguments report_invalidTypeForOperator {Expr}.
Arguments checkOperandKind options {Expr}.
Arguments BinaryExpression ts options {Expr}.

End StrictComparisons.

(* ================================================================= *)
(** ** class-name-casing.ts *)
(* ================================================================= *)

Module ClassNameCasing.

(** *** Regular expressions

    The part of JavaScript's [RegExp] that the rule's pattern uses:
    character classes given by ranges, concatenation and [*]; the
    alternative and the two constants only arise while matching.
    Characters are the bytes of the name; the classes of the pattern
    contain ASCII characters only, so a character outside ASCII is in
    none of them whatever its encoding. *)
Inductive regex : Type :=
| Empty
| Eps
| Class (ranges : list (ascii * ascii))
| Cat (r1 r2 : regex)
| Alt (r1 r2 : regex)
| Star (r : regex).

Definition in_range (c : ascii) (range : ascii * ascii) : bool :=
  let (lo, hi) := range in
  ((N_of_ascii lo <=? N_of_ascii c) && (N_of_ascii c <=? N_of_ascii hi))%N.

Definition in_class (ranges : list (ascii * ascii)) (c : ascii) : bool :=
  existsb (in_range c) ranges.

(** Does the expression match the empty string? *)
Fixpoint nullable (r : regex) : bool :=
  match r with
  | Empty => false
  | Eps => true
  | Class _ => false
  | Cat r1 r2 => nullable r1 && nullable r2
  | Alt r1 r2 => nullable r1 || nullable r2
  | Star _ => true
  end.

(** What is left to match once [c] has been read. *)
Fixpoint deriv (c : ascii) (r : regex) : regex :=
  match r with
  | Empty => Empty
  | Eps => Empty
  | Class ranges => if in_class ranges c then Eps else Empty
  | Cat r1 r2 =>
      if nullable r1
      then Alt (Cat (deriv c r1) r2) (deriv c r2)
      else Cat (deriv c r1) r2
  | Alt r1 r2 => Alt (deriv c r1) (deriv c r2)
  | Star r1 => Cat (deriv c r1) (Star r1)
  end.

(** [/^r$/.test(s)]: the whole of [s] matches [r]. *)
Fixpoint RegExp_test (r : regex) (s : string) : bool :=
  match s with
  | EmptyString => nullable r
  | String.String c rest => RegExp_test (deriv c r) rest
  end.

(** [[A-Z][0-9A-Za-z]*], the pattern of line 39 between its anchors. *)
Definition PascalCase_pattern : regex :=
  Cat (Class [("A"%char, "Z"%char)])
      (Star (Class [("0"%char, "9"%char); ("A"%char, "Z"%char);
                    ("a"%char, "z"%char)])).

(** [String(v)] of a value that is a string or [undefined]. *)
Definition ToString (v : option string) : string :=
  match v with
  | Some s => s
  | None => "undefined"%string
  end.

(** [isPascalCase], lines 38-40.  [test] converts its argument to a
    string first. *)
Definition isPascalCase (name : option string) : bool :=
  RegExp_test PascalCase_pattern (ToString name).

(** *** Syntax nodes, as far as the rule reads them *)

Record Identifier : Type := mkIdentifier { Identifier_name : string }.

(** The left-hand side of a variable declarator: an identifier or a
    destructuring pattern, which has no [name]. *)
Inductive Pattern : Type :=
| PIdentifier (i : Identifier)
| ObjectPattern
| ArrayPattern.

#[warnings="-register-all"] Inductive Node : Type :=
| ClassDeclaration (id : option Identifier) (abstract : bool)
| ClassExpression (id : option Identifier) (abstract : bool)
| TSInterfaceDeclaration (id : option Identifier)
| VariableDeclarator (id : option Pattern) (init : option Node)
| OtherNode (type : string).

(** [node.type]. *)
Definition Node_type (n : Node) : string :=
  match n with
  | ClassDeclaration _ _ => "ClassDeclaration"
  | ClassExpression _ _ => "ClassExpression"
  | TSInterfaceDeclaration _ => "TSInterfaceDeclaration"
  | VariableDeclarator _ _ => "VariableDeclarator"
  | OtherNode type => type
  end.

(** [node.id]; [None] is [null] or [undefined]. *)
Definition Node_id (n : Node) : option Pattern :=
  match n with
  | ClassDeclaration id _ => option_map PIdentifier id
  | ClassExpression id _ => option_map PIdentifier id
  | TSInterfaceDeclaration id => option_map PIdentifier id
  | VariableDeclarator id _ => id
  | OtherNode _ => None
  end.

(** [id.name]; [None] is [undefined]. *)
Definition Pattern_name (p : Pattern) : option string :=
  match p with
  | PIdentifier i => Some (Identifier_name i)
  | ObjectPattern => None
  | ArrayPattern => None
  end.

(** The argument of [context.report], lines 64-71. *)
Record ReportDescriptor : Type := mkReport {
  node : Pattern;
  friendlyName : string;
  name : option string
}.

(** [report], lines 47-72.  [None] is the [TypeError] of reading [name]
    off a missing identifier. *)
Definition report (decl : Node) (id : option Pattern)
  : option (list ReportDescriptor) :=
  let resolvedId := match id with Some i => Some i | None => Node_id decl end in
  let friendlyName :=
    match decl with
    | ClassDeclaration _ abstract | ClassExpression _ abstract =>
        if abstract then "Abstract class"%string else "Class"%string
    | TSInterfaceDeclaration _ => "Interface"%string
    | _ => Node_type decl
    end in
  match resolvedId with
  | None => None
  | Some r =>
      Some [ {| node := r;
                friendlyName := friendlyName;
                name := Pattern_name r |} ]
  end.

(** The listener of lines 79-84, for the selector
    [ClassDeclaration, TSInterfaceDeclaration, ClassExpression]. *)
Definition on_class_or_interface (n : Node) : option (list ReportDescriptor) :=
  match Node_id n with
  | Some id =>
      if negb (isPascalCase (Pattern_name id)) then report n None else Some []
  | None => Some []
  end.

(** The listener of lines 85-91, for the selector
    [VariableDeclarator[init.type='ClassExpression']].  A node without
    an initializer would fail on [node.init.id]. *)
Definition on_VariableDeclarator (n : Node) : option (list ReportDescriptor) :=
  let id := Node_id n in
  match n with
  | VariableDeclarator _ (Some init) =>
      match id with
      | Some id' =>
          match Node_id init with
          | Some _ => Some []
          | None =>
              if negb (isPascalCase (Pattern_name id'))
              then report init (Some id')
              else Some []
          end
      | None => Some []
      end
  | _ => match id with Some _ => None | None => Some [] end
  end.

Definition matches_class_or_interface (n : Node) : bool :=
  match n with
  | ClassDeclaration _ _ | TSInterfaceDeclaration _ | ClassExpression _ _ => true
  | _ => false
  end.

Definition matches_VariableDeclarator (n : Node) : bool :=
  match n with
  | VariableDeclarator _ (Some (ClassExpression _ _)) => true
  | _ => false
  end.

(** What the rule reports when the traversal enters [n]: each listener
    runs if its selector matches the node. *)
Definition visit (n : Node) : option (list ReportDescriptor) :=
  match (if matches_class_or_interface n then on_class_or_interface n
         else Some []) with
  | None => None
  | Some r1 =>
      match (if matches_VariableDeclarator n then on_VariableDeclarator n
             else Some []) with
      | None => None
      | Some r2 => Some (r1 ++ r2)
      end
  end.

(** The traversal: a node, then its initializer if it has one. *)
Fixpoint traverse (n : Node) : option (list ReportDescriptor) :=
  match visit n with
  | None => None
  | Some here =>
      match n with
      | VariableDeclarator _ (Some init) =>
          match traverse init with
          | None => None
          | Some below => Some (here ++ below)
          end
      | _ => Some here
      end
  end.

End ClassNameCasing.

(* ================================================================= *)
(** ** The specification's vocabulary *)
(* ================================================================= *)

Module Spec.
Import StrictComparisons.

(** The rank table of the data model. *)
Definition rank (k : TypeKind) : Z :=
  match k with
  | Any => 0
  | Number => 1
  | Enum => 2
  | String => 3
  | Boolean => 4
  | NullOrUndefined => 5
  | Object => 6
  end.

(** A kind-set, as the collection of the Kinds it contains. *)
Definition KindSet : Type := TypeKind -> Prop.

Definition members (L : list TypeKind) : KindSet := fun k => In k L.

Definition intersection (L R : list TypeKind) : KindSet :=
  fun k => In k L /\ In k R.

(** [k] is the Kind of highest rank in the kind-set [S]. *)
Definition highest_rank (S : KindSet) (k : TypeKind) : Prop :=
  S k /\ forall k', S k' -> rank k' <= rank k.

(** The two kind-sets share no Kind. *)
Definition disjoint (L R : list TypeKind) : Prop :=
  forall k, ~ (In k L /\ In k R).

(** One side contains [NullOrUndefined] and the other [Object]. *)
Definition null_object_pair (L R : list TypeKind) : Prop :=
  (In NullOrUndefined L /\ In Object R) \/ (In NullOrUndefined R /\ In Object L).

(** The eight comparison operators. *)
Definition comparison_operators : list string :=
  ["=="; "!="; "==="; "!=="; "<"; ">"; "<="; ">="]%string.

Inductive OperatorClass : Type :=
| Equality
| Ordering.

(** Operator classification of the operator policy. *)
Definition operatorClass (op : string) : option OperatorClass :=
  if existsb (String.eqb op) ["=="; "!="; "==="; "!=="]%string then Some Equality
  else if existsb (String.eqb op) ["<"; ">"; "<="; ">="]%string then Some Ordering
  else None.

(** The decision tables of the operator policy; [true] is allow. *)
Definition decide (k : TypeKind) (cls : OperatorClass) (cfg : Config) : bool :=
  match cls, k with
  | Equality, (Any | Number | Enum | String | Boolean) => true
  | Equality, (NullOrUndefined | Object) => allowObjectEqualComparison cfg
  | Ordering, (Any | Number) => true
  | Ordering, String => allowStringOrderComparison cfg
  | Ordering, (Boolean | Enum | NullOrUndefined | Object) => false
  end.

(** The human-readable name of a Kind. *)
Definition kind_name (k : TypeKind) : string :=
  match k with
  | Any => "any"
  | Number => "number"
  | Enum => "enum"
  | String => "string"
  | Boolean => "boolean"
  | NullOrUndefined => "null | undefined"
  | Object => "object"
  end.

(** [sep]-joined names. *)
Fixpoint joined (sep : string) (names : list string) : string :=
  match names with
  | [] => EmptyString
  | [x] => x
  | x :: rest => String.append x (String.append sep (joined sep rest))
  end.

(** The diagnostic of a policy rejection: the operator symbol and the
    name of the governing Kind. *)
Definition rejection {Expr : Type} (n : BinaryExpressionNode Expr) (k : TypeKind)
  : ReportDescriptor Expr :=
  {| node := n;
     messageId := invalidTypeForOperator;
     data := [ ("comparator"%string, Some (operator n));
               ("type"%string, Some (kind_name k)) ] |}.

(** The diagnostic of an incomparable pair: the joined Kind names of
    each side. *)
Definition incomparable {Expr : Type} (n : BinaryExpressionNode Expr)
    (L R : list TypeKind) : ReportDescriptor Expr :=
  {| node := n;
     messageId := nonComparableTypes;
     data := [ ("typesLeft"%string, Some (joined " | " (map kind_name L)));
               ("typesRight"%string, Some (joined " | " (map kind_name R))) ] |}.

(** An instance of the flag masks: one bit each, in the order of
    TypeScript's [TypeFlags] enumeration ([Any] is bit 0, [String] bit 2,
    [Number] bit 3, [Boolean] bit 4, [StringLiteral] bit 7, [NumberLiteral]
    bit 8, [BooleanLiteral] bit 9, [Void] bit 14, [Undefined] bit 15,
    [Null] bit 16, [Union] bit 20). *)
Definition sample_TypeFlags : TypeFlags :=
  {| TypeFlags_Any := 1;
     TypeFlags_String := 4;
     TypeFlags_Number := 8;
     TypeFlags_StringLiteral := 128;
     TypeFlags_NumberLiteral := 256;
     TypeFlags_BooleanLike := Z.lor 16 512;
     TypeFlags_Void := 16384;
     TypeFlags_Undefined := 32768;
     TypeFlags_Null := 65536;
     TypeFlags_Union := 1048576 |}.

Section Classification.
Variable ts : TypeFlags.

(** The type carries the flag [f]. *)
Definition has_flag (t : tsType) (f : Z) : Prop := Z.land (flags t) f <> 0.

Definition string_like (t : tsType) : Prop :=
  has_flag t (TypeFlags_String ts) \/ has_flag t (TypeFlags_StringLiteral ts).

Definition numeric_like (t : tsType) : Prop :=
  has_flag t (TypeFlags_Number ts) \/ has_flag t (TypeFlags_NumberLiteral ts).

Definition boolean_like (t : tsType) : Prop :=
  has_flag t (TypeFlags_BooleanLike ts).

Definition null_undefined_void (t : tsType) : Prop :=
  has_flag t (TypeFlags_Null ts) \/ has_flag t (TypeFlags_Undefined ts)
  \/ has_flag t (TypeFlags_Void ts).

Definition unconstrained (t : tsType) : Prop :=
  has_flag t (TypeFlags_Any ts).

(** The type checker builds a union out of at least one constituent. *)
Definition union_wf (t : tsType) : Prop :=
  isUnionType ts t = true -> types t <> [].

End Classification.

(** Operand types of the scenarios, under [sample_TypeFlags]. *)
Definition number_type : tsType := mkType 8 [].
Definition string_type : tsType := mkType 4 [].
Definition object_type : tsType := mkType 524288 [].
Definition null_type : tsType := mkType 65536 [].
Definition default_options : Config := mkConfig false false.

(** An expression whose operands are given by their types. *)
Definition compare (op : string) (l r : tsType) : BinaryExpressionNode tsType :=
  mkBinaryExpression op l r.

Definition run (options : Config) (n : BinaryExpressionNode tsType)
  : list (ReportDescriptor tsType) :=
  reports (snd (BinaryExpression sample_TypeFlags options (fun t => t) n)).

Import ClassNameCasing.

(** The language of a regular expression. *)
Inductive Matches : regex -> string -> Prop :=
| MEps : Matches Eps EmptyString
| MClass ranges c :
    in_class ranges c = true ->
    Matches (Class ranges) (String.String c EmptyString)
| MCat r1 r2 s1 s2 :
    Matches r1 s1 -> Matches r2 s2 -> Matches (Cat r1 r2) (String.append s1 s2)
| MAltL r1 r2 s : Matches r1 s -> Matches (Alt r1 r2) s
| MAltR r1 r2 s : Matches r2 s -> Matches (Alt r1 r2) s
| MStarNil r : Matches (Star r) EmptyString
| MStarApp r s1 s2 :
    Matches r s1 -> Matches (Star r) s2 -> Matches (Star r) (String.append s1 s2).

(** An upper-case ASCII letter. *)
Definition upper (c : ascii) : Prop :=
  (N_of_ascii "A" <= N_of_ascii c <= N_of_ascii "Z")%N.

(** An ASCII digit or letter. *)
Definition alphanumeric (c : ascii) : Prop :=
  (N_of_ascii "0" <= N_of_ascii c <= N_of_ascii "9")%N
  \/ (N_of_ascii "A" <= N_of_ascii c <= N_of_ascii "Z")%N
  \/ (N_of_ascii "a" <= N_of_ascii c <= N_of_ascii "z")%N.

(** Every character of [s] satisfies [P]. *)
Fixpoint all_chars (P : ascii -> Prop) (s : string) : Prop :=
  match s with
  | EmptyString => True
  | String.String c rest => P c /\ all_chars P rest
  end.

(** The name is PascalCased: an upper-case letter followed by digits and
    letters only. *)
Definition PascalCased (s : string) : Prop :=
  match s with
  | EmptyString => False
  | String.String c rest => upper c /\ all_chars alphanumeric rest
  end.

(** The friendly name of a declaration kind. *)
Definition friendly (n : Node) : string :=
  match n with
  | ClassDeclaration _ true | ClassExpression _ true => "Abstract class"
  | ClassDeclaration _ false | ClassExpression _ false => "Class"
  | TSInterfaceDeclaration _ => "Interface"
  | VariableDeclarator _ _ => "VariableDeclarator"
  | OtherNode type => type
  end.

(** The report that names declaration [decl] and the identifier [i] that
    is bound to it. *)
Definition casing_report (decl : Node) (i : Identifier) : ReportDescriptor :=
  {| node := PIdentifier i;
     friendlyName := friendly decl;
     name := Some (Identifier_name i) |}.

End Spec.

(* ================================================================= *)
(** ** Properties of strict-comparisons.ts *)
(* ================================================================= *)

Module StrictComparisonsProofs.
Import JS StrictComparisons Spec.

(** *** Kinds and arrays of kinds *)

Lemma rank_value (k : TypeKind) : TypeKind_value k = rank k.
Proof. destruct k; reflexivity. Qed.

Lemma rank_inj (a b : TypeKind) : rank a = rank b -> a = b.
Proof. destruct a, b; simpl; intros H; try reflexivity; discriminate H. Qed.

Lemma TypeKind_eqb_eq (a b : TypeKind) : TypeKind_eqb a b = true <-> a = b.
Proof.
  unfold TypeKind_eqb. rewrite Z.eqb_eq, !rank_value. split.
  - apply rank_inj.
  - intros ->. reflexivity.
Qed.

Lemma TypeKind_eqb_refl (a : TypeKind) : TypeKind_eqb a a = true.
Proof. apply TypeKind_eqb_eq. reflexivity. Qed.

Lemma indexOf_from_found (arr : list TypeKind) (x : TypeKind) :
  forall i, 0 <= i ->
    (indexOf_from TypeKind_eqb arr x i >=? 0)
    = existsb (fun y => TypeKind_eqb y x) arr.
Proof.
  induction arr as [|y rest IH]; intros i Hi; simpl.
  - reflexivity.
  - destruct (TypeKind_eqb y x); simpl.
    + apply Z.geb_le. lia.
    + apply IH. lia.
Qed.

Lemma indexOf_In (arr : list TypeKind) (x : TypeKind) :
  (indexOf TypeKind_eqb arr x >=? 0) = true <-> In x arr.
Proof.
  unfold indexOf. rewrite indexOf_from_found by lia.
  rewrite existsb_exists. split.
  - intros [y [Hy Heq]]. apply TypeKind_eqb_eq in Heq. subst. exact Hy.
  - intros H. exists x. split; [exact H | apply TypeKind_eqb_refl].
Qed.

Lemma arrayContainsKind_In (types : list TypeKind) (k : TypeKind) :
  arrayContainsKind types k = true <-> In k types.
Proof.
  unfold arrayContainsKind, some. rewrite existsb_exists. split.
  - intros [y [Hy Heq]]. apply TypeKind_eqb_eq in Heq. subst. exact Hy.
  - intros H. exists k. split; [exact H | apply TypeKind_eqb_refl].
Qed.

Lemma arrayContainsKind_false (types : list TypeKind) (k : TypeKind) :
  arrayContainsKind types k = false <-> ~ In k types.
Proof.
  rewrite <- arrayContainsKind_In.
  destruct (arrayContainsKind types k); split; intros H;
    congruence || (exfalso; apply H; reflexivity).
Qed.

Lemma overlappingTypes_In (L R : list TypeKind) (k : TypeKind) :
  In k (overlappingTypes L R) <-> In k L /\ In k R.
Proof.
  unfold overlappingTypes. rewrite filter_In, indexOf_In. reflexivity.
Qed.

Lemma overlappingTypes_nil (L R : list TypeKind) :
  overlappingTypes L R = [] <-> disjoint L R.
Proof.
  split.
  - intros H k Hk. apply overlappingTypes_In in Hk. rewrite H in Hk. exact Hk.
  - intros H. destruct (overlappingTypes L R) as [|k rest] eqn:E; [reflexivity|].
    exfalso. apply (H k). apply overlappingTypes_In. rewrite E. left. reflexivity.
Qed.

Lemma disjoint_sym (L R : list TypeKind) : disjoint L R -> disjoint R L.
Proof. intros H k [H1 H2]. apply (H k). split; assumption. Qed.

Lemma length_positive {A : Type} (l : list A) :
  (Z.of_nat (List.length l) >? 0) = true <-> l <> [].
Proof.
  destruct l as [|x l]; simpl List.length.
  - split; [discriminate | intros H; contradiction H; reflexivity].
  - split; [discriminate | intros _; apply Z.gtb_lt; lia].
Qed.

Lemma length_zero {A : Type} (l : list A) :
  (Z.of_nat (List.length l) >? 0) = false <-> l = [].
Proof.
  destruct l as [|x l]; simpl List.length.
  - split; reflexivity.
  - split; [|discriminate]. intros H.
    assert (Hp : (Z.of_nat (Datatypes.S (List.length l)) >? 0) = true)
      by (apply Z.gtb_lt; lia).
    rewrite Hp in H. discriminate H.
Qed.

(** *** [Math.max] *)

Lemma fold_max2_Int (args : list Z) :
  forall h, exists m,
    fold_left max2 args (Int h) = Int m
    /\ (m = h \/ In m args) /\ h <= m /\ (forall x, In x args -> x <= m).
Proof.
  induction args as [|a rest IH]; intros h; simpl.
  - exists h. repeat split; auto; try lia.
  - destruct (h <? a) eqn:E.
    + apply Z.ltb_lt in E. destruct (IH a) as [m [Hm [Hin [Hle Hub]]]].
      exists m. split; [exact Hm|]. split; [|split].
      * right. destruct Hin as [->|Hin]; [left; reflexivity | right; exact Hin].
      * lia.
      * intros x [<-|Hx]; [exact Hle | apply Hub, Hx].
    + apply Z.ltb_ge in E. destruct (IH h) as [m [Hm [Hin [Hle Hub]]]].
      exists m. split; [exact Hm|]. split; [|split].
      * destruct Hin as [->|Hin]; [left; reflexivity | right; right; exact Hin].
      * exact Hle.
      * intros x [<-|Hx]; [lia | apply Hub, Hx].
Qed.

Lemma Math_max_nonempty (args : list Z) :
  args <> [] ->
  exists m, Math_max args = Int m /\ In m args /\ forall x, In x args -> x <= m.
Proof.
  destruct args as [|a rest]; intros H; [contradiction H; reflexivity|].
  unfold Math_max. simpl.
  destruct (fold_max2_Int rest a) as [m [Hm [Hin [Hle Hub]]]].
  exists m. split; [exact Hm|]. split.
  - destruct Hin as [->|Hin]; [left; reflexivity | right; exact Hin].
  - intros x [<-|Hx]; [exact Hle | apply Hub, Hx].
Qed.

Lemma getStrictestKind_nil : getStrictestKind [] = NegInfinity.
Proof. reflexivity. Qed.

Lemma getStrictestKind_highest (types : list TypeKind) :
  types <> [] ->
  exists k, getStrictestKind types = kind_number k
            /\ highest_rank (members types) k.
Proof.
  intros H. unfold getStrictestKind.
  destruct (Math_max_nonempty (map TypeKind_value types)) as [m [Hm [Hin Hub]]].
  - destruct types; [contradiction H; reflexivity | discriminate].
  - apply in_map_iff in Hin. destruct Hin as [k [Hk Hin]].
    exists k. split; [|split].
    + rewrite Hm. unfold kind_number. rewrite Hk. reflexivity.
    + exact Hin.
    + intros k' Hk'. rewrite <- (rank_value k'), <- (rank_value k), Hk.
      apply Hub. apply in_map. exact Hk'.
Qed.

Lemma getStrictestKind_NegInfinity (types : list TypeKind) :
  getStrictestKind types = NegInfinity <-> types = [].
Proof.
  split.
  - intros H. destruct types as [|k rest]; [reflexivity|].
    destruct (getStrictestKind_highest (k :: rest)) as [k' [Hk' _]];
      [discriminate|].
    rewrite Hk' in H. discriminate H.
  - intros ->. reflexivity.
Qed.

Lemma highest_rank_unique (S S' : KindSet) (k k' : TypeKind) :
  (forall x, S x <-> S' x) ->
  highest_rank S k -> highest_rank S' k' -> k = k'.
Proof.
  intros Hiff [Hin Hub] [Hin' Hub']. apply rank_inj.
  apply Hiff in Hin. apply Hiff in Hin'.
  specialize (Hub _ Hin'). specialize (Hub' _ Hin). lia.
Qed.

Lemma highest_rank_ext (S S' : KindSet) (k : TypeKind) :
  (forall x, S x <-> S' x) -> highest_rank S k -> highest_rank S' k.
Proof.
  intros Hiff [Hin Hub]. split.
  - apply Hiff, Hin.
  - intros k' Hk'. apply Hub, Hiff, Hk'.
Qed.

Lemma kind_number_inj (a b : TypeKind) : kind_number a = kind_number b -> a = b.
Proof.
  unfold kind_number. intros H. injection H as H.
  rewrite !rank_value in H. apply rank_inj, H.
Qed.

(** *** The resolver, branch by branch *)

Lemma resolver_overlap (L R : list TypeKind) :
  overlappingTypes L R <> [] ->
  getStrictestComparableType L R = Some (getStrictestKind (overlappingTypes L R)).
Proof.
  intros H. unfold getStrictestComparableType. fold (overlappingTypes L R).
  apply length_positive in H. rewrite H. reflexivity.
Qed.

Lemma resolver_no_overlap (L R : list TypeKind) :
  overlappingTypes L R = [] ->
  getStrictestComparableType L R =
    if arrayContainsKind L Any then Some (getStrictestKind R)
    else if arrayContainsKind R Any then Some (getStrictestKind L)
    else if (arrayContainsKind L NullOrUndefined && arrayContainsKind R Object)
            || (arrayContainsKind R NullOrUndefined && arrayContainsKind L Object)
    then Some (kind_number Object)
    else None.
Proof.
  intros H. unfold getStrictestComparableType. fold (overlappingTypes L R).
  apply length_zero in H. rewrite H. reflexivity.
Qed.

Lemma null_object_pair_bool (L R : list TypeKind) :
  (arrayContainsKind L NullOrUndefined && arrayContainsKind R Object)
  || (arrayContainsKind R NullOrUndefined && arrayContainsKind L Object) = true
  <-> null_object_pair L R.
Proof.
  unfold null_object_pair.
  rewrite orb_true_iff, !andb_true_iff, !arrayContainsKind_In. reflexivity.
Qed.


Lemma overlap_highest (L R : list TypeKind) :
  (exists k, In k L /\ In k R) ->
  exists k, getStrictestComparableType L R = Some (kind_number k)
            /\ highest_rank (intersection L R) k.
Proof.
  intros [k0 Hk0].
  assert (Hne : overlappingTypes L R <> []).
  { intros E. apply overlappingTypes_nil in E. exact (E k0 Hk0). }
  rewrite (resolver_overlap _ _ Hne).
  destruct (getStrictestKind_highest _ Hne) as [k [Hk Hh]].
  exists k. split; [rewrite Hk; reflexivity|].
  apply (highest_rank_ext (members (overlappingTypes L R))); [|exact Hh].
  intros x. apply overlappingTypes_In.
Qed.

(** C1. For non-empty kind-sets the resolver follows the specified
    algorithm: a non-empty intersection yields its Kind of highest rank;
    otherwise [Any] on the left yields the highest-rank Kind of the right
    side and [Any] on the right that of the left side; otherwise a
    [NullOrUndefined]/[Object] pair (in either direction) yields [Object];
    otherwise the result is the incomparable sentinel. *)
Theorem C1_resolver_follows_algorithm (L R : list TypeKind) :
  L <> [] -> R <> [] ->
  ((exists k, In k L /\ In k R) ->
     exists k, getStrictestComparableType L R = Some (kind_number k)
               /\ highest_rank (intersection L R) k)
  /\ (disjoint L R -> In Any L ->
     exists k, getStrictestComparableType L R = Some (kind_number k)
               /\ highest_rank (members R) k)
  /\ (disjoint L R -> In Any R ->
     exists k, getStrictestComparableType L R = Some (kind_number k)
               /\ highest_rank (members L) k)
  /\ (disjoint L R -> ~ In Any L -> ~ In Any R -> null_object_pair L R ->
     getStrictestComparableType L R = Some (kind_number Object))
  /\ (disjoint L R -> ~ In Any L -> ~ In Any R -> ~ null_object_pair L R ->
     getStrictestComparableType L R = None).
Proof.
  intros HL HR. split; [apply overlap_highest|].
  split; [|split; [|split]]; intros Hd;
    pose proof (proj2 (overlappingTypes_nil L R) Hd) as E;
    rewrite (resolver_no_overlap _ _ E).
  - intros HA. apply arrayContainsKind_In in HA. rewrite HA.
    destruct (getStrictestKind_highest R HR) as [k [Hk Hh]].
    exists k. rewrite Hk. split; [reflexivity | exact Hh].
  - intros HA.
    assert (HnA : ~ In Any L) by (intros H; exact (Hd Any (conj H HA))).
    apply arrayContainsKind_false in HnA. apply arrayContainsKind_In in HA.
    rewrite HnA, HA.
    destruct (getStrictestKind_highest L HL) as [k [Hk Hh]].
    exists k. rewrite Hk. split; [reflexivity | exact Hh].
  - intros HnL HnR Hp.
    apply arrayContainsKind_false in HnL, HnR. rewrite HnL, HnR.
    apply null_object_pair_bool in Hp. rewrite Hp. reflexivity.
  - intros HnL HnR Hp.
    apply arrayContainsKind_false in HnL, HnR. rewrite HnL, HnR.
    destruct ((arrayContainsKind L NullOrUndefined && arrayContainsKind R Object)
              || (arrayContainsKind R NullOrUndefined
                  && arrayContainsKind L Object)) eqn:Eb; [|reflexivity].
    exfalso. apply Hp, null_object_pair_bool, Eb.
Qed.

Lemma C1_witness :
  [Number; String] <> [] /\ [String; Object] <> []
  /\ exists k, getStrictestComparableType [Number; String] [String; Object]
               = Some (kind_number k)
               /\ highest_rank (intersection [Number; String] [String; Object]) k.
Proof.
  split; [discriminate|]. split; [discriminate|].
  apply (C1_resolver_follows_algorithm [Number; String] [String; Object]);
    try discriminate.
  exists String. simpl. split; [right; left; reflexivity | left; reflexivity].
Defined.

(** C3. Resolution is symmetric in its two kind-sets. *)
Theorem C3_resolver_symmetric (L R : list TypeKind) :
  getStrictestComparableType L R = getStrictestComparableType R L.
Proof.
  destruct (overlappingTypes L R) as [|k0 rest] eqn:E.
  - pose proof (proj1 (overlappingTypes_nil L R) E) as Hd.
    pose proof (proj2 (overlappingTypes_nil R L) (disjoint_sym _ _ Hd)) as E'.
    rewrite (resolver_no_overlap _ _ E), (resolver_no_overlap _ _ E').
    destruct (arrayContainsKind L Any) eqn:HL;
      destruct (arrayContainsKind R Any) eqn:HR; try reflexivity.
    + apply arrayContainsKind_In in HL, HR. exfalso. exact (Hd Any (conj HL HR)).
    + rewrite orb_comm. reflexivity.
  - assert (Hne : overlappingTypes L R <> []) by (rewrite E; discriminate).
    assert (Hne' : overlappingTypes R L <> []).
    { intros E'. apply overlappingTypes_nil in E'.
      apply Hne. apply overlappingTypes_nil. apply disjoint_sym, E'. }
    rewrite (resolver_overlap _ _ Hne), (resolver_overlap _ _ Hne').
    destruct (getStrictestKind_highest _ Hne) as [k [Hk Hh]].
    destruct (getStrictestKind_highest _ Hne') as [k' [Hk' Hh']].
    rewrite Hk, Hk'. f_equal. f_equal.
    apply (highest_rank_unique (members (overlappingTypes L R))
             (members (overlappingTypes R L))); try assumption.
    intros x. unfold members. rewrite !overlappingTypes_In. tauto.
Qed.


(** Every way the resolver can answer, with the array it hands to
    [getStrictestKind] when it does. *)
Lemma resolver_cases (L R : list TypeKind) :
  (overlappingTypes L R <> []
   /\ getStrictestComparableType L R
      = Some (getStrictestKind (overlappingTypes L R)))
  \/ (disjoint L R /\ In Any L
      /\ getStrictestComparableType L R = Some (getStrictestKind R))
  \/ (disjoint L R /\ In Any R
      /\ getStrictestComparableType L R = Some (getStrictestKind L))
  \/ (disjoint L R /\ null_object_pair L R
      /\ getStrictestComparableType L R = Some (kind_number Object))
  \/ getStrictestComparableType L R = None.
Proof.
  destruct (overlappingTypes L R) as [|k0 rest] eqn:E.
  - pose proof (proj1 (overlappingTypes_nil L R) E) as Hd.
    rewrite (resolver_no_overlap _ _ E). right.
    destruct (arrayContainsKind L Any) eqn:HL.
    { left. apply arrayContainsKind_In in HL. auto. }
    destruct (arrayContainsKind R Any) eqn:HR.
    { right. left. apply arrayContainsKind_In in HR. auto. }
    destruct ((arrayContainsKind L NullOrUndefined && arrayContainsKind R Object)
              || (arrayContainsKind R NullOrUndefined
                  && arrayContainsKind L Object)) eqn:Eb.
    { right. right. left. apply null_object_pair_bool in Eb. auto. }
    right. right. right. reflexivity.
  - left. rewrite <- E. split.
    + rewrite E. discriminate.
    + apply resolver_overlap. rewrite E. discriminate.
Qed.

(** Without the precondition the selection does run on an empty array. *)
Example resolver_empty_side :
  getStrictestComparableType [Any] [] = Some NegInfinity.
Proof. reflexivity. Qed.

Lemma resolver_None_or_kind (L R : list TypeKind) :
  L <> [] -> R <> [] ->
  getStrictestComparableType L R = None
  \/ exists k, getStrictestComparableType L R = Some (kind_number k).
Proof.
  intros HL HR.
  destruct (resolver_cases L R)
    as [[Hne E] | [[_ [_ E]] | [[_ [_ E]] | [[_ [_ E]] | E]]]].
  - destruct (getStrictestKind_highest _ Hne) as [k [Hk _]].
    right. exists k. rewrite E, Hk. reflexivity.
  - destruct (getStrictestKind_highest _ HR) as [k [Hk _]].
    right. exists k. rewrite E, Hk. reflexivity.
  - destruct (getStrictestKind_highest _ HL) as [k [Hk _]].
    right. exists k. rewrite E, Hk. reflexivity.
  - right. exists Object. exact E.
  - left. exact E.
Qed.

(** C9. On non-empty kind-sets the resolver never hands an empty array to
    [getStrictestKind]: the array is the non-empty overlap or one of the
    two operands.  So its result is never [Math.max]'s empty-array value
    [-Infinity]; it is the incomparable sentinel or the number of one of
    the seven Kinds. *)
Theorem C9_resolver_result_in_range (L R : list TypeKind) :
  L <> [] -> R <> [] ->
  (getStrictestComparableType L R = None
   \/ getStrictestComparableType L R = Some (kind_number Object)
   \/ exists types, In types [overlappingTypes L R; R; L] /\ types <> []
                    /\ getStrictestComparableType L R
                       = Some (getStrictestKind types))
  /\ getStrictestComparableType L R <> Some NegInfinity
  /\ (getStrictestComparableType L R = None
      \/ exists k, In k all_kinds
                   /\ getStrictestComparableType L R = Some (kind_number k)).
Proof.
  intros HL HR.
  assert (Hall : forall k, In k all_kinds)
    by (intros k; destruct k; simpl; tauto).
  pose proof (resolver_None_or_kind L R HL HR) as Hin.
  split; [|split].
  - destruct (resolver_cases L R)
      as [[Hne E] | [[_ [_ E]] | [[_ [_ E]] | [[_ [_ E]] | E]]]]; auto.
    + right. right. exists (overlappingTypes L R). simpl. auto.
    + right. right. exists R. simpl. auto.
    + right. right. exists L. simpl. auto.
  - destruct Hin as [E | [k E]]; rewrite E; discriminate.
  - destruct Hin as [E | [k E]]; [left; exact E|].
    right. exists k. split; [apply Hall | exact E].
Qed.

Lemma C9_witness :
  [Any] <> [] /\ [String; Boolean] <> []
  /\ getStrictestComparableType [Any] [String; Boolean] <> Some NegInfinity
  /\ (getStrictestComparableType [Any] [String; Boolean] = None
      \/ exists k, In k all_kinds
                   /\ getStrictestComparableType [Any] [String; Boolean]
                      = Some (kind_number k)).
Proof.
  split; [discriminate|]. split; [discriminate|].
  apply (C9_resolver_result_in_range [Any] [String; Boolean]); discriminate.
Defined.

(** C10. On non-empty kind-sets, a Kind the resolver returns is a member
    of one of the two sets: the overlap branch returns a Kind of both, the
    [Any] branches a Kind of the other side, and the null/object fallback
    returns [Object], which the side paired with [NullOrUndefined]
    contains. *)
Theorem C10_governing_kind_is_member (L R : list TypeKind) (k : TypeKind) :
  L <> [] -> R <> [] ->
  getStrictestComparableType L R = Some (kind_number k) ->
  (In k L \/ In k R)
  /\ ((In k L /\ In k R)
      \/ (disjoint L R /\ In Any L /\ In k R)
      \/ (disjoint L R /\ In Any R /\ In k L)
      \/ (disjoint L R /\ k = Object /\ null_object_pair L R)).
Proof.
  intros HL HR Hres.
  assert (Hb : (In k L /\ In k R)
      \/ (disjoint L R /\ In Any L /\ In k R)
      \/ (disjoint L R /\ In Any R /\ In k L)
      \/ (disjoint L R /\ k = Object /\ null_object_pair L R)).
  { destruct (resolver_cases L R)
      as [[Hne E] | [[Hd [HA E]] | [[Hd [HA E]] | [[Hd [Hp E]] | E]]]];
      rewrite E in Hres; try discriminate Hres;
      assert (Hres' := f_equal (fun o => match o with
                                         | Some v => v
                                         | None => NegInfinity
                                         end) Hres);
      cbv beta iota in Hres'; clear Hres; rename Hres' into Hres.
    - destruct (getStrictestKind_highest _ Hne) as [k' [Hk' [Hin _]]].
      rewrite Hk' in Hres. apply kind_number_inj in Hres. subst k'.
      left. apply overlappingTypes_In, Hin.
    - destruct (getStrictestKind_highest _ HR) as [k' [Hk' [Hin _]]].
      rewrite Hk' in Hres. apply kind_number_inj in Hres. subst k'.
      right. left. auto.
    - destruct (getStrictestKind_highest _ HL) as [k' [Hk' [Hin _]]].
      rewrite Hk' in Hres. apply kind_number_inj in Hres. subst k'.
      right. right. left. auto.
    - apply (kind_number_inj Object k) in Hres. subst k.
      right. right. right. auto. }
  split; [|exact Hb].
  destruct Hb as [[H _] | [[_ [_ H]] | [[_ [_ H]] | [_ [-> Hp]]]]]; auto.
  destruct Hp as [[_ H] | [_ H]]; auto.
Qed.

Lemma C10_witness :
  [NullOrUndefined; Number] <> [] /\ [Object] <> []
  /\ getStrictestComparableType [NullOrUndefined; Number] [Object]
     = Some (kind_number Object)
  /\ (In Object [NullOrUndefined; Number] \/ In Object [Object]).
Proof.
  split; [discriminate|]. split; [discriminate|]. split; [reflexivity|].
  apply (C10_governing_kind_is_member [NullOrUndefined; Number] [Object] Object);
    try discriminate; reflexivity.
Defined.


(** *** Classification *)

Section ClassificationProofs.
Variable ts : TypeFlags.

Lemma isTypeFlagSet_has_flag (t : tsType) (f : Z) :
  isTypeFlagSet t f = true <-> has_flag t f.
Proof.
  unfold isTypeFlagSet, has_flag. rewrite negb_true_iff, Z.eqb_neq. reflexivity.
Qed.

Lemma isTypeFlagSet_lor (t : tsType) (a b : Z) :
  isTypeFlagSet t (Z.lor a b) = true <-> has_flag t a \/ has_flag t b.
Proof.
  rewrite isTypeFlagSet_has_flag. unfold has_flag.
  rewrite Z.land_lor_distr_r, Z.lor_eq_0_iff.
  destruct (Z.eq_dec (Z.land (flags t) a) 0) as [Ha|Ha];
    destruct (Z.eq_dec (Z.land (flags t) b) 0) as [Hb|Hb]; tauto.
Qed.

Lemma is_string_like (t : tsType) :
  isTypeFlagSet t (Z.lor (TypeFlags_String ts) (TypeFlags_StringLiteral ts)) = true
  <-> string_like ts t.
Proof. apply isTypeFlagSet_lor. Qed.

Lemma is_numeric_like (t : tsType) :
  isTypeFlagSet t (Z.lor (TypeFlags_Number ts) (TypeFlags_NumberLiteral ts)) = true
  <-> numeric_like ts t.
Proof. apply isTypeFlagSet_lor. Qed.

Lemma is_null_undefined_void (t : tsType) :
  isTypeFlagSet t (Z.lor (Z.lor (TypeFlags_Null ts) (TypeFlags_Undefined ts))
                         (TypeFlags_Void ts)) = true
  <-> null_undefined_void ts t.
Proof.
  rewrite isTypeFlagSet_lor. unfold null_undefined_void.
  rewrite <- (isTypeFlagSet_has_flag t (Z.lor _ _)), isTypeFlagSet_lor. tauto.
Qed.

(** Turns a test that has been decided into the fact it stands for. *)
Ltac settle H :=
  match type of H with
  | true = true <-> ?P => assert P by (apply H; reflexivity)
  | false = true <-> ?P =>
      assert (~ P) by (let HP := fresh in intros HP; apply H in HP; discriminate HP)
  end; clear H.

(** C4. [getKind] tests its rules in a fixed order, the first that holds
    deciding: string-like, numeric-like, boolean-like, null/undefined/void,
    any, and [Object] when none holds; it never answers [Enum]. *)
Theorem C4_getKind_priority (t : tsType) :
  (getKind ts t = String <-> string_like ts t)
  /\ (getKind ts t = Number <-> ~ string_like ts t /\ numeric_like ts t)
  /\ (getKind ts t = Boolean <->
      ~ string_like ts t /\ ~ numeric_like ts t /\ boolean_like ts t)
  /\ (getKind ts t = NullOrUndefined <->
      ~ string_like ts t /\ ~ numeric_like ts t /\ ~ boolean_like ts t
      /\ null_undefined_void ts t)
  /\ (getKind ts t = Any <->
      ~ string_like ts t /\ ~ numeric_like ts t /\ ~ boolean_like ts t
      /\ ~ null_undefined_void ts t /\ unconstrained ts t)
  /\ (getKind ts t = Object <->
      ~ string_like ts t /\ ~ numeric_like ts t /\ ~ boolean_like ts t
      /\ ~ null_undefined_void ts t /\ ~ unconstrained ts t)
  /\ getKind ts t <> Enum.
Proof.
  pose proof (is_string_like t) as Hs.
  pose proof (is_numeric_like t) as Hn.
  pose proof (isTypeFlagSet_has_flag t (TypeFlags_BooleanLike ts)) as Hb.
  pose proof (is_null_undefined_void t) as Hu.
  pose proof (isTypeFlagSet_has_flag t (TypeFlags_Any ts)) as Ha.
  fold (boolean_like ts t) in Hb. fold (unconstrained ts t) in Ha.
  unfold getKind. cbv zeta.
  destruct (isTypeFlagSet t (Z.lor (TypeFlags_String ts) _)); settle Hs;
    [repeat split; intros; try discriminate; tauto|].
  destruct (isTypeFlagSet t (Z.lor (TypeFlags_Number ts) _)); settle Hn;
    [repeat split; intros; try discriminate; tauto|].
  destruct (isTypeFlagSet t (TypeFlags_BooleanLike ts)); settle Hb;
    [repeat split; intros; try discriminate; tauto|].
  destruct (isTypeFlagSet t (Z.lor (Z.lor _ _) _)); settle Hu;
    [repeat split; intros; try discriminate; tauto|].
  destruct (isTypeFlagSet t (TypeFlags_Any ts)); settle Ha;
    repeat split; intros; try discriminate; tauto.
Qed.

(** [Array.from(new Set(arr))] *)

Lemma Set_add_In (s : list TypeKind) (x y : TypeKind) :
  In y (Set_add TypeKind_eqb s x) <-> In y s \/ y = x.
Proof.
  unfold Set_add. destruct (existsb (TypeKind_eqb x) s) eqn:E.
  - apply existsb_exists in E. destruct E as [z [Hz Heq]].
    apply TypeKind_eqb_eq in Heq. subst z.
    split; [auto | intros [H | ->]; assumption].
  - rewrite in_app_iff. simpl. intuition.
Qed.

Lemma Set_add_NoDup (s : list TypeKind) (x : TypeKind) :
  NoDup s -> NoDup (Set_add TypeKind_eqb s x).
Proof.
  intros Hs. unfold Set_add. destruct (existsb (TypeKind_eqb x) s) eqn:E.
  - exact Hs.
  - assert (Hx : ~ In x s).
    { intros Hin. assert (existsb (TypeKind_eqb x) s = true).
      { apply existsb_exists. exists x. split; [exact Hin|].
        apply TypeKind_eqb_refl. }
      congruence. }
    clear E. induction Hs as [|a l Ha Hl IH]; simpl.
    + constructor; [intros [] | constructor].
    + constructor.
      * rewrite in_app_iff. simpl. intros [H | [H | []]].
        -- exact (Ha H).
        -- apply Hx. left. symmetry. exact H.
      * apply IH. intros H. apply Hx. right. exact H.
Qed.

Lemma fold_Set_add (arr : list TypeKind) :
  forall s, NoDup s ->
    NoDup (fold_left (Set_add TypeKind_eqb) arr s)
    /\ forall y, In y (fold_left (Set_add TypeKind_eqb) arr s)
                 <-> In y s \/ In y arr.
Proof.
  induction arr as [|x rest IH]; intros s Hs; simpl.
  - split; [exact Hs | intros y; tauto].
  - destruct (IH _ (Set_add_NoDup s x Hs)) as [Hnd Hin].
    split; [exact Hnd|]. intros y. rewrite Hin, Set_add_In. intuition.
Qed.

Lemma Array_from_Set_spec (arr : list TypeKind) :
  NoDup (Array_from_Set TypeKind_eqb arr)
  /\ forall y, In y (Array_from_Set TypeKind_eqb arr) <-> In y arr.
Proof.
  destruct (fold_Set_add arr [] (NoDup_nil _)) as [Hnd Hin].
  split; [exact Hnd|]. intros y. unfold Array_from_Set. rewrite Hin.
  simpl. tauto.
Qed.

Lemma getKinds_nonempty (t : tsType) : union_wf ts t -> getKinds ts t <> [].
Proof.
  intros Hwf. unfold getKinds. destruct (isUnionType ts t) eqn:E; [|discriminate].
  destruct (Array_from_Set_spec (map (getKind ts) (types t))) as [_ Hin].
  specialize (Hwf E).
  destruct (types t) as [|m ms] eqn:Et; [contradiction Hwf; reflexivity|].
  intros Hnil.
  assert (H : In (getKind ts m)
                 (Array_from_Set TypeKind_eqb (map (getKind ts) (m :: ms)))).
  { apply Hin. left. reflexivity. }
  rewrite Hnil in H. exact H.
Qed.

(** C5. [getKinds] gives every type a non-empty kind-set: the Kind of
    the type alone when it is not a union, and the Kinds of the members,
    each once, when it is.  A union is taken as the type checker builds
    it, with at least one constituent. *)
Theorem C5_getKinds_total_nonempty (t : tsType) :
  union_wf ts t ->
  getKinds ts t <> []
  /\ (isUnionType ts t = false -> getKinds ts t = [getKind ts t])
  /\ (isUnionType ts t = true ->
      NoDup (getKinds ts t)
      /\ forall k, In k (getKinds ts t)
                   <-> exists m, In m (types t) /\ getKind ts m = k).
Proof.
  intros Hwf. split; [apply getKinds_nonempty, Hwf|]. unfold getKinds.
  destruct (isUnionType ts t) eqn:E.
  - destruct (Array_from_Set_spec (map (getKind ts) (types t))) as [Hnd Hin].
    split; [discriminate|].
    intros _. split; [exact Hnd|]. intros k. rewrite Hin, in_map_iff.
    split; intros [m [H1 H2]]; exists m; auto.
  - split; [reflexivity | discriminate].
Qed.

End ClassificationProofs.

(** [boolean | string | 'a'] classifies to [boolean | string]. *)
Lemma C5_witness :
  let t := mkType 1048576 [mkType 16 []; mkType 4 []; mkType 128 []] in
  union_wf sample_TypeFlags t
  /\ getKinds sample_TypeFlags t = [Boolean; String]
  /\ getKinds sample_TypeFlags t <> [].
Proof.
  intros t. split; [intros _; discriminate|]. split; [reflexivity|].
  apply (C5_getKinds_total_nonempty sample_TypeFlags t). intros _. discriminate.
Defined.


(** *** Operators *)

Lemma operatorClass_Equality (op : string) :
  operatorClass op = Some Equality ->
  isEqualityOperator op = true /\ isComparisonOperator op = true.
Proof.
  unfold operatorClass, isComparisonOperator, isEqualityOperator. simpl.
  destruct (String.eqb op "=="); destruct (String.eqb op "!=");
    destruct (String.eqb op "==="); destruct (String.eqb op "!==");
    simpl; try (split; reflexivity);
    destruct (String.eqb op "<"); destruct (String.eqb op ">");
    destruct (String.eqb op "<="); destruct (String.eqb op ">=");
    simpl; discriminate.
Qed.

Lemma operatorClass_Ordering (op : string) :
  operatorClass op = Some Ordering ->
  isEqualityOperator op = false /\ isComparisonOperator op = true.
Proof.
  unfold operatorClass, isComparisonOperator, isEqualityOperator. simpl.
  destruct (String.eqb op "=="); destruct (String.eqb op "!=");
    destruct (String.eqb op "==="); destruct (String.eqb op "!==");
    simpl; try discriminate;
    destruct (String.eqb op "<"); destruct (String.eqb op ">");
    destruct (String.eqb op "<="); destruct (String.eqb op ">=");
    simpl; try discriminate; split; reflexivity.
Qed.

Lemma isComparisonOperator_In (op : string) :
  isComparisonOperator op = true -> In op comparison_operators.
Proof.
  unfold isComparisonOperator, isEqualityOperator, comparison_operators.
  repeat match goal with
         | |- context [String.eqb op ?s] =>
             let E := fresh "E" in
             destruct (String.eqb op s) eqn:E;
             [apply String.eqb_eq in E; subst op; simpl; tauto|]
         end.
  discriminate.
Qed.

Lemma typeNames_kind (k : TypeKind) :
  typeNames (kind_number k) = Some (kind_name k).
Proof. destruct k; reflexivity. Qed.

Lemma join_kind_names (sep : string) (kinds : list TypeKind) :
  join sep (map (fun type => typeNames (kind_number type)) kinds)
  = joined sep (map kind_name kinds).
Proof.
  induction kinds as [|k rest IH]; [reflexivity|].
  cbn [map join joined]. rewrite typeNames_kind, IH.
  destruct rest; reflexivity.
Qed.

(** *** The evaluator *)

Section EvaluatorProofs.
Variable ts : TypeFlags.
Variable options : Config.
Variable Expr : Type.
Variable typeAtLocation : Expr -> tsType.

Lemma checkOperandKind_decide
    (n : BinaryExpressionNode Expr) (k : TypeKind) (cls : OperatorClass) :
  operatorClass (operator n) = Some cls ->
  checkOperandKind options n (kind_number k)
  = (tt, if decide k cls options then []
         else [context_report (rejection n k)]).
Proof.
  intros Hcls. unfold checkOperandKind, report_invalidTypeForOperator, rejection.
  rewrite typeNames_kind.
  destruct cls.
  - destruct (operatorClass_Equality _ Hcls) as [-> _].
    destruct k; simpl; try reflexivity;
      destruct (allowObjectEqualComparison options); reflexivity.
  - destruct (operatorClass_Ordering _ Hcls) as [-> _].
    destruct k; simpl; try reflexivity;
      destruct (allowStringOrderComparison options); reflexivity.
Qed.

Lemma checkOperandKind_at_most_one
    (n : BinaryExpressionNode Expr) (operandKind : number) :
  (List.length (reports (snd (checkOperandKind options n operandKind))) <= 1)%nat.
Proof.
  unfold checkOperandKind, report_invalidTypeForOperator, call, ret.
  repeat match goal with
         | |- context [if ?b then _ else _] => destruct b
         end; simpl; lia.
Qed.

(** C2. The operator policy follows the decision tables.  For an
    equality operator it allows [Any], [Number], [Enum], [String] and
    [Boolean], and rejects [NullOrUndefined] and [Object] unless
    [allowObjectEqualComparison] is set; for an ordering operator it
    allows [Any] and [Number], rejects [String] unless
    [allowStringOrderComparison] is set, and rejects the four other Kinds
    whatever the flags.  A rejection is one [invalidTypeForOperator]
    report, an allowance is silent. *)
Theorem C2_operator_policy_tables
    (n : BinaryExpressionNode Expr) (k : TypeKind) (cls : OperatorClass) :
  operatorClass (operator n) = Some cls ->
  let allowed :=
    match cls with
    | Equality =>
        In k [Any; Number; Enum; String; Boolean]
        \/ (In k [NullOrUndefined; Object]
            /\ allowObjectEqualComparison options = true)
    | Ordering =>
        In k [Any; Number]
        \/ (k = String /\ allowStringOrderComparison options = true)
    end in
  (allowed <-> decide k cls options = true)
  /\ (allowed -> checkOperandKind options n (kind_number k) = (tt, []))
  /\ (~ allowed ->
      checkOperandKind options n (kind_number k)
      = (tt, [context_report (rejection n k)])).
Proof.
  intros Hcls allowed. pose proof (checkOperandKind_decide n k _ Hcls) as Hd.
  assert (Hiff : allowed <-> decide k cls options = true).
  { subst allowed. destruct cls, k; simpl;
      intuition (try discriminate; try congruence). }
  split; [exact Hiff|]. split.
  - intros Ha. apply Hiff in Ha. rewrite Ha in Hd. exact Hd.
  - intros Hn. destruct (decide k cls options); [|exact Hd].
    exfalso. apply Hn, Hiff. reflexivity.
Qed.

(** C7. A binary expression whose operator is none of the eight
    comparison operators makes the rule do nothing: it asks the type
    checker nothing and reports nothing. *)
Theorem C7_other_operators_ignored (n : BinaryExpressionNode Expr) :
  ~ In (operator n) comparison_operators ->
  BinaryExpression ts options typeAtLocation n = (tt, []).
Proof.
  intros Hop. unfold BinaryExpression.
  destruct (isComparisonOperator (operator n)) eqn:E; [|reflexivity].
  exfalso. apply Hop, isComparisonOperator_In, E.
Qed.

Lemma BinaryExpression_comparison (n : BinaryExpressionNode Expr) :
  isComparisonOperator (operator n) = true ->
  let L := getKinds ts (typeAtLocation (left n)) in
  let R := getKinds ts (typeAtLocation (right n)) in
  reports (snd (BinaryExpression ts options typeAtLocation n))
  = match getStrictestComparableType L R with
    | None => [incomparable n L R]
    | Some operandKind => reports (snd (checkOperandKind options n operandKind))
    end.
Proof.
  intros Hop L R. unfold BinaryExpression, getNodeType, bind, call, ret.
  rewrite Hop. cbv beta iota zeta. fold L R.
  destruct (getStrictestComparableType L R) as [operandKind|].
  - destruct (checkOperandKind options n operandKind) as [u log]. reflexivity.
  - cbn [snd app reports]. unfold incomparable.
    rewrite !join_kind_names. reflexivity.
Qed.

(** C6. An evaluated comparison yields at most one diagnostic.  When the
    resolution is incomparable it is one [nonComparableTypes] report with
    the [" | "]-joined Kind names of both sides, and the policy is not
    consulted; when a Kind governs, it is one [invalidTypeForOperator]
    report with the operator and that Kind's name if the policy rejects,
    and nothing if the policy allows.  So a diagnostic is emitted exactly
    when the resolution is incomparable or the policy rejects. *)
Theorem C6_one_diagnostic_at_most (n : BinaryExpressionNode Expr) :
  let L := getKinds ts (typeAtLocation (left n)) in
  let R := getKinds ts (typeAtLocation (right n)) in
  let out := reports (snd (BinaryExpression ts options typeAtLocation n)) in
  (List.length out <= 1)%nat
  /\ forall cls,
       operatorClass (operator n) = Some cls ->
       union_wf ts (typeAtLocation (left n)) ->
       union_wf ts (typeAtLocation (right n)) ->
       ((getStrictestComparableType L R = None /\ out = [incomparable n L R])
        \/ (exists k, getStrictestComparableType L R = Some (kind_number k)
                      /\ decide k cls options = false
                      /\ out = [rejection n k])
        \/ (exists k, getStrictestComparableType L R = Some (kind_number k)
                      /\ decide k cls options = true
                      /\ out = []))
       /\ (out <> [] <->
           getStrictestComparableType L R = None
           \/ exists k, getStrictestComparableType L R = Some (kind_number k)
                        /\ decide k cls options = false).
Proof.
  intros L R out. split.
  - subst out. destruct (isComparisonOperator (operator n)) eqn:Hop.
    + rewrite (BinaryExpression_comparison n Hop). fold L R.
      destruct (getStrictestComparableType L R) as [operandKind|].
      * apply checkOperandKind_at_most_one.
      * simpl. lia.
    + unfold BinaryExpression. rewrite Hop. simpl. lia.
  - intros cls Hcls HwfL HwfR.
    assert (Hop : isComparisonOperator (operator n) = true).
    { destruct cls;
        [apply operatorClass_Equality in Hcls | apply operatorClass_Ordering in Hcls];
        apply Hcls. }
    assert (Hout : out = match getStrictestComparableType L R with
                         | None => [incomparable n L R]
                         | Some operandKind =>
                             reports (snd (checkOperandKind options n operandKind))
                         end)
      by (apply BinaryExpression_comparison, Hop).
    clearbody out.
    destruct (resolver_None_or_kind L R
                (getKinds_nonempty ts _ HwfL) (getKinds_nonempty ts _ HwfR))
      as [E | [k E]]; rewrite E in Hout |- *.
    + split; [left; auto|]. rewrite Hout. split; [auto | discriminate].
    + rewrite (checkOperandKind_decide n k cls Hcls) in Hout.
      destruct (decide k cls options) eqn:Ed; simpl in Hout.
      * split; [right; right; exists k; auto|]. rewrite Hout. split.
        -- intros H. contradiction H. reflexivity.
        -- intros [H | [k' [Hk' Hd']]]; [discriminate H|].
           assert (Hkk : kind_number k = kind_number k') by congruence.
           apply kind_number_inj in Hkk. subst k'. congruence.
      * split; [right; left; exists k; auto|]. rewrite Hout. split.
        -- intros _. right. exists k. auto.
        -- discriminate.
Qed.

End EvaluatorProofs.

(** *** The specification's scenarios *)

Example number_order_allowed :
  run default_options (compare "<" number_type number_type) = [].
Proof. reflexivity. Qed.

Example string_order_rejected :
  run default_options (compare "<" string_type string_type)
  = [rejection (compare "<" string_type string_type) String].
Proof. reflexivity. Qed.

Example string_order_allowed_by_flag :
  run (mkConfig false true) (compare "<" string_type string_type) = [].
Proof. reflexivity. Qed.

Example number_string_incomparable :
  run default_options (compare "==" number_type string_type)
  = [ {| node := compare "==" number_type string_type;
         messageId := nonComparableTypes;
         data := [ ("typesLeft"%string, Some "number"%string);
                   ("typesRight"%string, Some "string"%string) ] |} ].
Proof. reflexivity. Qed.

Example object_equality_rejected :
  run default_options (compare "===" object_type object_type)
  = [rejection (compare "===" object_type object_type) Object]
  /\ run (mkConfig true false) (compare "===" object_type object_type) = [].
Proof. split; reflexivity. Qed.

Example null_object_falls_back_to_Object :
  getStrictestComparableType (getKinds sample_TypeFlags null_type)
                             (getKinds sample_TypeFlags object_type)
  = Some (kind_number Object)
  /\ run default_options (compare "==" null_type object_type)
     = [rejection (compare "==" null_type object_type) Object].
Proof. split; reflexivity. Qed.

Lemma C2_witness :
  operatorClass "<=" = Some Ordering
  /\ checkOperandKind default_options (compare "<=" string_type string_type)
       (kind_number String)
     = (tt, [context_report
               (rejection (compare "<=" string_type string_type) String)]).
Proof.
  split; [reflexivity|].
  apply (C2_operator_policy_tables default_options tsType
           (compare "<=" string_type string_type) String Ordering eq_refl).
  simpl. intros [[H | [H | []]] | [_ H]]; discriminate H.
Defined.

Lemma C6_witness :
  operatorClass "==" = Some Equality
  /\ union_wf sample_TypeFlags number_type
  /\ union_wf sample_TypeFlags string_type
  /\ (run default_options (compare "==" number_type string_type) <> [] <->
      getStrictestComparableType [Number] [String] = None
      \/ exists k, getStrictestComparableType [Number] [String]
                   = Some (kind_number k)
                   /\ decide k Equality default_options = false).
Proof.
  split; [reflexivity|]. split; [intros H; discriminate H|].
  split; [intros H; discriminate H|].
  apply (C6_one_diagnostic_at_most sample_TypeFlags default_options tsType
           (fun t => t) (compare "==" number_type string_type)).
  - reflexivity.
  - intros H. discriminate H.
  - intros H. discriminate H.
Defined.

Lemma C7_witness :
  ~ In "+"%string comparison_operators
  /\ BinaryExpression sample_TypeFlags default_options (fun t => t)
       (compare "+" number_type string_type) = (tt, []).
Proof.
  assert (H : ~ In "+"%string comparison_operators).
  { simpl. intros H. repeat destruct H as [H | H]; try discriminate H. exact H. }
  split; [exact H|].
  apply (C7_other_operators_ignored sample_TypeFlags default_options tsType
           (fun t => t) (compare "+" number_type string_type)).
  exact H.
Defined.

(* ----------------------------------------------------------------- *)
(** *** Further properties of the resolver and its helpers *)

Lemma getStrictestKind_ext (A B : list TypeKind) :
  (forall k, In k A <-> In k B) -> getStrictestKind A = getStrictestKind B.
Proof.
  intros Hiff. destruct A as [|a A'].
  - destruct B as [|b B']; [reflexivity|].
    exfalso. apply (Hiff b). left. reflexivity.
  - assert (HA : a :: A' <> []) by discriminate.
    assert (HB : B <> []).
    { intros ->. apply (Hiff a). left. reflexivity. }
    destruct (getStrictestKind_highest _ HA) as [k [Hk Hh]].
    destruct (getStrictestKind_highest _ HB) as [k' [Hk' Hh']].
    rewrite Hk, Hk'. f_equal.
    rewrite (highest_rank_unique (members (a :: A')) (members B) k k');
      auto.
Qed.

Lemma arrayContainsKind_ext (A B : list TypeKind) (k : TypeKind) :
  (forall x, In x A <-> In x B) -> arrayContainsKind A k = arrayContainsKind B k.
Proof.
  intros Hiff.
  destruct (arrayContainsKind A k) eqn:EA; destruct (arrayContainsKind B k) eqn:EB;
    try reflexivity.
  - apply arrayContainsKind_In in EA. apply arrayContainsKind_false in EB.
    exfalso. apply EB, Hiff, EA.
  - apply arrayContainsKind_In in EB. apply arrayContainsKind_false in EA.
    exfalso. apply EA, Hiff, EB.
Qed.

(** X1. [getStrictestKind] answers [-Infinity] on the empty array and on
    no other; on any array it answers the number of a Kind exactly when
    that Kind is the member of highest rank. *)
Theorem X1_getStrictestKind_characterised (types : list TypeKind) :
  (getStrictestKind types = NegInfinity <-> types = [])
  /\ forall k, getStrictestKind types = kind_number k
               <-> highest_rank (members types) k.
Proof.
  split; [apply getStrictestKind_NegInfinity|]. intros k. split.
  - intros H. destruct types as [|a rest]; [discriminate H|].
    destruct (getStrictestKind_highest (a :: rest)) as [k' [Hk' Hh]];
      [discriminate|].
    rewrite Hk' in H. apply kind_number_inj in H. subst k'. exact Hh.
  - intros Hh. assert (Hne : types <> []).
    { intros ->. destruct Hh as [[] _]. }
    destruct (getStrictestKind_highest _ Hne) as [k' [Hk' Hh']].
    rewrite Hk'. f_equal.
    apply (highest_rank_unique (members types) (members types)); tauto.
Qed.

(** X2. The strictest kind of an array depends on which Kinds occur in
    it only, not on their order or on repetitions. *)
Theorem X2_getStrictestKind_order_insensitive (A B : list TypeKind) :
  (forall k, In k A <-> In k B) -> getStrictestKind A = getStrictestKind B.
Proof. apply getStrictestKind_ext. Qed.

Lemma X2_witness :
  getStrictestKind [Number; String; Number] = getStrictestKind [String; Number].
Proof.
  apply (X2_getStrictestKind_order_insensitive
           [Number; String; Number] [String; Number]).
  intros k. simpl. tauto.
Defined.

(** X3. The operator tests accept exactly the listed symbols:
    [isEqualityOperator] the four equality operators,
    [isComparisonOperator] these and the four ordering operators, so every
    equality operator is a comparison operator. *)
Theorem X3_operator_tests_exact (op : string) :
  (isEqualityOperator op = true <-> In op ["=="; "!="; "==="; "!=="]%string)
  /\ (isComparisonOperator op = true <-> In op comparison_operators)
  /\ (isEqualityOperator op = true -> isComparisonOperator op = true).
Proof.
  split; [|split].
  - split.
    + unfold isEqualityOperator.
      repeat match goal with
             | |- context [String.eqb op ?s] =>
                 let E := fresh "E" in
                 destruct (String.eqb op s) eqn:E;
                 [apply String.eqb_eq in E; subst op; simpl; tauto|]
             end.
      discriminate.
    + simpl. intros H.
      repeat destruct H as [H | H]; try (subst op; reflexivity). contradiction H.
  - split; [apply isComparisonOperator_In|].
    unfold comparison_operators. simpl. intros H.
    repeat destruct H as [H | H]; try (subst op; reflexivity). contradiction H.
  - unfold isComparisonOperator. intros ->. reflexivity.
Qed.

(** X4. Two operands are incomparable exactly when they share no Kind,
    neither contains [Any], and they do not pair [NullOrUndefined] with
    [Object]; this holds for empty arrays as well. *)
Theorem X4_incomparable_exactly (L R : list TypeKind) :
  getStrictestComparableType L R = None
  <-> disjoint L R /\ ~ In Any L /\ ~ In Any R /\ ~ null_object_pair L R.
Proof.
  destruct (overlappingTypes L R) as [|k0 rest] eqn:E.
  - pose proof (proj1 (overlappingTypes_nil L R) E) as Hd.
    rewrite (resolver_no_overlap _ _ E).
    pose proof (arrayContainsKind_In L Any) as HL.
    pose proof (arrayContainsKind_In R Any) as HR.
    pose proof (null_object_pair_bool L R) as Hp.
    destruct (arrayContainsKind L Any).
    { split; [discriminate|]. intros [_ [H _]]. exfalso. apply H, HL. reflexivity. }
    destruct (arrayContainsKind R Any).
    { split; [discriminate|]. intros [_ [_ [H _]]]. exfalso. apply H, HR.
      reflexivity. }
    destruct ((arrayContainsKind L NullOrUndefined && arrayContainsKind R Object)
              || (arrayContainsKind R NullOrUndefined
                  && arrayContainsKind L Object)).
    { split; [discriminate|]. intros [_ [_ [_ H]]]. exfalso. apply H, Hp.
      reflexivity. }
    split; [|reflexivity]. intros _.
    repeat split; try exact Hd.
    + intros H. apply HL in H. discriminate H.
    + intros H. apply HR in H. discriminate H.
    + intros H. apply Hp in H. discriminate H.
  - assert (Hne : overlappingTypes L R <> []) by (rewrite E; discriminate).
    rewrite (resolver_overlap _ _ Hne). split; [discriminate|].
    intros [Hd _]. exfalso. apply Hne. apply overlappingTypes_nil, Hd.
Qed.

(** X5. The resolver's result is [Math.max]'s empty-array value
    [-Infinity] exactly when one operand array is empty and the other
    contains [Any]. *)
Theorem X5_negative_infinity_exactly (L R : list TypeKind) :
  getStrictestComparableType L R = Some NegInfinity
  <-> (L = [] /\ In Any R) \/ (R = [] /\ In Any L).
Proof.
  split.
  - intros H.
    destruct (resolver_cases L R)
      as [[Hne E] | [[_ [HA E]] | [[_ [HA E]] | [[_ [_ E]] | E]]]];
      rewrite E in H; try discriminate H;
      assert (H' := f_equal (fun o => match o with
                                      | Some v => v
                                      | None => Int 0
                                      end) H);
      cbv beta iota in H'.
    + apply getStrictestKind_NegInfinity in H'. contradiction.
    + apply getStrictestKind_NegInfinity in H'. auto.
    + apply getStrictestKind_NegInfinity in H'. auto.
  - intros [[-> HA] | [-> HA]].
    + assert (E : overlappingTypes [] R = []) by reflexivity.
      rewrite (resolver_no_overlap _ _ E).
      apply arrayContainsKind_In in HA. rewrite HA. reflexivity.
    + assert (E : overlappingTypes L [] = []).
      { apply overlappingTypes_nil. intros k [_ []]. }
      rewrite (resolver_no_overlap _ _ E).
      apply arrayContainsKind_In in HA. rewrite HA. reflexivity.
Qed.

Lemma resolver_self (L : list TypeKind) :
  L <> [] ->
  getStrictestComparableType L L = Some (getStrictestKind L)
  /\ exists k, getStrictestKind L = kind_number k
               /\ highest_rank (members L) k.
Proof.
  intros HL. split; [|apply getStrictestKind_highest, HL].
  assert (Hiff : forall k, In k (overlappingTypes L L) <-> In k L).
  { intros k. rewrite overlappingTypes_In. tauto. }
  assert (Hne : overlappingTypes L L <> []).
  { destruct L as [|a rest]; [contradiction HL; reflexivity|].
    intros E. assert (Ha : In a (overlappingTypes (a :: rest) (a :: rest)))
      by (apply Hiff; left; reflexivity).
    rewrite E in Ha. exact Ha. }
  rewrite (resolver_overlap _ _ Hne). f_equal.
  apply getStrictestKind_ext, Hiff.
Qed.

(** X6. A non-empty array of kinds is always comparable with itself, and
    its own strictest kind governs. *)
Theorem X6_self_comparable (L : list TypeKind) :
  L <> [] ->
  getStrictestComparableType L L = Some (getStrictestKind L)
  /\ exists k, getStrictestKind L = kind_number k
               /\ highest_rank (members L) k.
Proof. apply resolver_self. Qed.

Lemma X6_witness :
  [String; NullOrUndefined] <> []
  /\ getStrictestComparableType [String; NullOrUndefined] [String; NullOrUndefined]
     = Some (kind_number NullOrUndefined).
Proof.
  split; [discriminate|].
  apply (X6_self_comparable [String; NullOrUndefined]). discriminate.
Defined.

(** X7. The resolver treats its arguments as sets: replacing an array by
    one with the same Kinds, in any order and with any repetitions, does
    not change the result. *)
Theorem X7_resolver_respects_sets (L L' R R' : list TypeKind) :
  (forall k, In k L <-> In k L') -> (forall k, In k R <-> In k R') ->
  getStrictestComparableType L R = getStrictestComparableType L' R'.
Proof.
  intros HL HR.
  assert (Ho : forall k, In k (overlappingTypes L R)
                         <-> In k (overlappingTypes L' R')).
  { intros k. rewrite !overlappingTypes_In, HL, HR. reflexivity. }
  destruct (overlappingTypes L R) as [|k0 rest] eqn:E.
  - assert (E' : overlappingTypes L' R' = []).
    { destruct (overlappingTypes L' R') as [|k1 rest']; [reflexivity|].
      exfalso. apply (Ho k1). left. reflexivity. }
    rewrite (resolver_no_overlap _ _ E), (resolver_no_overlap _ _ E').
    rewrite (arrayContainsKind_ext L L' Any HL),
            (arrayContainsKind_ext R R' Any HR),
            (arrayContainsKind_ext L L' NullOrUndefined HL),
            (arrayContainsKind_ext R R' NullOrUndefined HR),
            (arrayContainsKind_ext L L' Object HL),
            (arrayContainsKind_ext R R' Object HR),
            (getStrictestKind_ext L L' HL), (getStrictestKind_ext R R' HR).
    reflexivity.
  - assert (Hne : overlappingTypes L R <> []) by (rewrite E; discriminate).
    assert (Hne' : overlappingTypes L' R' <> []).
    { intros E'. rewrite E' in Ho. apply (Ho k0). left. reflexivity. }
    rewrite (resolver_overlap _ _ Hne), (resolver_overlap _ _ Hne').
    apply f_equal. apply getStrictestKind_ext. intros k. rewrite E. apply Ho.
Qed.

Lemma X7_witness :
  getStrictestComparableType [Number; String; Number] [Object; String]
  = getStrictestComparableType [String; Number] [String; Object; Object].
Proof.
  apply (X7_resolver_respects_sets [Number; String; Number] [String; Number]
           [Object; String] [String; Object; Object]);
    intros k; simpl; tauto.
Defined.

(* ----------------------------------------------------------------- *)
(** *** Further properties of classification *)

Lemma fold_Set_add_cons (x : TypeKind) (arr : list TypeKind) :
  forall s,
    fold_left (Set_add TypeKind_eqb) arr (x :: s)
    = x :: fold_left (Set_add TypeKind_eqb)
             (filter (fun y => negb (TypeKind_eqb y x)) arr) s.
Proof.
  induction arr as [|y rest IH]; intros s; [reflexivity|].
  cbn [fold_left filter]. destruct (TypeKind_eqb y x) eqn:E; cbn [negb].
  - assert (Hs : Set_add TypeKind_eqb (x :: s) y = x :: s).
    { unfold Set_add. cbn [existsb]. rewrite E. reflexivity. }
    rewrite Hs. apply IH.
  - cbn [fold_left].
    assert (Hs : Set_add TypeKind_eqb (x :: s) y = x :: Set_add TypeKind_eqb s y).
    { unfold Set_add. cbn [existsb]. rewrite E. cbn [orb].
      destruct (existsb (TypeKind_eqb y) s); reflexivity. }
    rewrite Hs. apply IH.
Qed.

Lemma getKind_not_Enum (ts : TypeFlags) (t : tsType) : getKind ts t <> Enum.
Proof.
  unfold getKind. cbv zeta.
  repeat match goal with
         | |- context [if ?b then _ else _] => destruct b
         end; discriminate.
Qed.

Lemma getKinds_members (ts : TypeFlags) (t : tsType) (k : TypeKind) :
  In k (getKinds ts t) -> exists m, getKind ts m = k.
Proof.
  unfold getKinds. destruct (isUnionType ts t).
  - intros H. apply (proj1 (proj2 (Array_from_Set_spec _) _)) in H.
    apply in_map_iff in H.
    destruct H as [m [Hm _]]. exists m. exact Hm.
  - intros [H | []]. exists t. exact H.
Qed.

(** X8. The kind-set of a union lists the Kinds in the order in which
    they first occur among the members: it starts with the Kind of the
    first member, followed by the kind-set of the other members without
    that Kind. *)
Theorem X8_getKinds_first_occurrence_order
    (ts : TypeFlags) (t m : tsType) (ms : list tsType) :
  isUnionType ts t = true -> types t = m :: ms ->
  getKinds ts t
  = getKind ts m
    :: Array_from_Set TypeKind_eqb
         (filter (fun k => negb (TypeKind_eqb k (getKind ts m)))
                 (map (getKind ts) ms)).
Proof.
  intros Hu Ht. unfold getKinds. rewrite Hu, Ht.
  unfold Array_from_Set. cbn [map fold_left].
  assert (Hs : Set_add TypeKind_eqb [] (getKind ts m) = [getKind ts m])
    by reflexivity.
  rewrite Hs. apply fold_Set_add_cons.
Qed.

(** [string | number | 'a' | null]: string, number, null | undefined. *)
Lemma X8_witness :
  let t := mkType 1048576
             [mkType 4 []; mkType 8 []; mkType 128 []; mkType 65536 []] in
  isUnionType sample_TypeFlags t = true
  /\ getKinds sample_TypeFlags t = [String; Number; NullOrUndefined].
Proof.
  intros t. split; [reflexivity|].
  rewrite (X8_getKinds_first_occurrence_order sample_TypeFlags t (mkType 4 [])
             [mkType 8 []; mkType 128 []; mkType 65536 []]);
    reflexivity.
Defined.

(** X9. Whatever the type, its kind-set has no repetition, does not
    contain [Enum], and so has at most six elements. *)
Theorem X9_getKinds_distinct_without_Enum (ts : TypeFlags) (t : tsType) :
  NoDup (getKinds ts t)
  /\ ~ In Enum (getKinds ts t)
  /\ (List.length (getKinds ts t) <= 6)%nat.
Proof.
  assert (Hnd : NoDup (getKinds ts t)).
  { unfold getKinds. destruct (isUnionType ts t).
    - apply Array_from_Set_spec.
    - constructor; [intros [] | constructor]. }
  assert (HnE : ~ In Enum (getKinds ts t)).
  { intros H. apply getKinds_members in H. destruct H as [m Hm].
    exact (getKind_not_Enum ts m Hm). }
  split; [exact Hnd|]. split; [exact HnE|].
  apply (NoDup_incl_length
           (l' := [Any; Number; String; Boolean; NullOrUndefined; Object]) Hnd).
  intros k Hk. destruct k; simpl; tauto.
Qed.

Lemma resolver_member (L R : list TypeKind) (k : TypeKind) :
  getStrictestComparableType L R = Some (kind_number k) -> In k L \/ In k R.
Proof.
  intros H.
  assert (Hg : forall types, getStrictestKind types = kind_number k -> In k types).
  { intros types Hk. destruct types as [|a rest]; [discriminate Hk|].
    destruct (getStrictestKind_highest (a :: rest)) as [k' [Hk' [Hin _]]];
      [discriminate|].
    rewrite Hk' in Hk. apply kind_number_inj in Hk. subst k'. exact Hin. }
  destruct (resolver_cases L R)
    as [[Hne E] | [[_ [_ E]] | [[_ [_ E]] | [[_ [Hp E]] | E]]]];
    rewrite E in H; try discriminate H;
    assert (H' := f_equal (fun o => match o with
                                    | Some v => v
                                    | None => NegInfinity
                                    end) H);
    cbv beta iota in H'.
  - apply Hg in H'. apply overlappingTypes_In in H'. tauto.
  - right. apply Hg, H'.
  - left. apply Hg, H'.
  - apply (kind_number_inj Object k) in H'. subst k.
    destruct Hp as [[_ Hp] | [_ Hp]]; auto.
Qed.

(** X10. [Enum] never governs a comparison: the resolver, run on the
    kind-sets of two types, does not answer [Enum], so the [Enum] case of
    the policy is never taken. *)
Theorem X10_Enum_never_governs (ts : TypeFlags) (l r : tsType) :
  getStrictestComparableType (getKinds ts l) (getKinds ts r)
  <> Some (kind_number Enum).
Proof.
  intros H. apply resolver_member in H.
  destruct H as [H | H]; apply getKinds_members in H; destruct H as [m Hm];
    exact (getKind_not_Enum ts m Hm).
Qed.

(** X11. [typeNames] has an entry exactly for the numbers of the seven
    Kinds, and different Kinds have different names. *)
Theorem X11_typeNames_entries (v : number) :
  (typeNames v = None <-> forall k, v <> kind_number k)
  /\ forall k1 k2,
       typeNames (kind_number k1) = typeNames (kind_number k2) -> k1 = k2.
Proof.
  split.
  - split.
    + intros H k E. rewrite E, typeNames_kind in H. discriminate H.
    + intros H. destruct v as [|z]; [reflexivity|].
      unfold typeNames, typeNames_table. cbn [lookup TypeKind_value].
      repeat match goal with
             | |- context [?a =? z] =>
                 let E := fresh "E" in
                 destruct (a =? z) eqn:E;
                 [apply Z.eqb_eq in E; subst z; exfalso|]
             end; try reflexivity.
      * apply (H Any). reflexivity.
      * apply (H Number). reflexivity.
      * apply (H Enum). reflexivity.
      * apply (H String). reflexivity.
      * apply (H Boolean). reflexivity.
      * apply (H NullOrUndefined). reflexivity.
      * apply (H Object). reflexivity.
  - intros k1 k2. rewrite !typeNames_kind.
    destruct k1, k2; intros H; try reflexivity; discriminate H.
Qed.

(* ----------------------------------------------------------------- *)
(** *** Further properties of the evaluator *)

Lemma checkOperandKind_log (options : Config) (Expr : Type)
    (n : BinaryExpressionNode Expr) (operandKind : number) :
  snd (checkOperandKind options n operandKind)
  = map context_report (reports (snd (checkOperandKind options n operandKind))).
Proof.
  unfold checkOperandKind, report_invalidTypeForOperator, call, ret.
  repeat match goal with
         | |- context [if ?b then _ else _] => destruct b
         end; reflexivity.
Qed.

(** X12. For a comparison operator the rule asks the type checker for
    the type of the left operand, then for that of the right operand, once
    each, and only then reports. *)
Theorem X12_calls_in_order
    (ts : TypeFlags) (options : Config) (Expr : Type)
    (typeAtLocation : Expr -> tsType) (n : BinaryExpressionNode Expr) :
  In (operator n) comparison_operators ->
  snd (BinaryExpression ts options typeAtLocation n)
  = getTypeAtLocation (left n) :: getTypeAtLocation (right n)
    :: map context_report
         (reports (snd (BinaryExpression ts options typeAtLocation n))).
Proof.
  intros Hop.
  assert (Hc : isComparisonOperator (operator n) = true).
  { unfold comparison_operators in Hop. simpl in Hop.
    repeat destruct Hop as [Hop | Hop]; try (rewrite <- Hop; reflexivity).
    contradiction Hop. }
  unfold BinaryExpression, getNodeType, bind, call, ret.
  rewrite Hc. cbv beta iota zeta.
  destruct (getStrictestComparableType _ _) as [operandKind|].
  - pose proof (checkOperandKind_log options Expr n operandKind) as Hl.
    destruct (checkOperandKind options n operandKind) as [u log].
    cbn [snd app reports] in *. rewrite Hl at 1. reflexivity.
  - reflexivity.
Qed.

Lemma X12_witness :
  In "<"%string comparison_operators
  /\ snd (BinaryExpression sample_TypeFlags default_options (fun t => t)
            (compare "<" string_type number_type))
     = [ getTypeAtLocation string_type; getTypeAtLocation number_type;
         context_report
           (incomparable (compare "<" string_type number_type)
                         [String] [Number]) ].
Proof.
  assert (H : In "<"%string comparison_operators)
    by (simpl; do 4 right; left; reflexivity).
  split; [exact H|].
  rewrite (X12_calls_in_order sample_TypeFlags default_options tsType
             (fun t => t) (compare "<" string_type number_type) H).
  reflexivity.
Defined.

(** X13. Setting an option never adds a diagnostic: under options that
    allow at least as much, the rule reports either nothing or exactly
    what it reported before. *)
Theorem X13_options_only_silence
    (ts : TypeFlags) (o o' : Config) (Expr : Type)
    (typeAtLocation : Expr -> tsType) (n : BinaryExpressionNode Expr) :
  (allowObjectEqualComparison o = true -> allowObjectEqualComparison o' = true) ->
  (allowStringOrderComparison o = true -> allowStringOrderComparison o' = true) ->
  reports (snd (BinaryExpression ts o' typeAtLocation n)) = []
  \/ reports (snd (BinaryExpression ts o' typeAtLocation n))
     = reports (snd (BinaryExpression ts o typeAtLocation n)).
Proof.
  intros Hobj Hstr.
  destruct (isComparisonOperator (operator n)) eqn:Hc.
  - rewrite !(BinaryExpression_comparison _ _ _ _ n Hc).
    destruct (getStrictestComparableType _ _) as [operandKind|]; [|right; reflexivity].
    unfold checkOperandKind, report_invalidTypeForOperator, call, ret.
    destruct (allowObjectEqualComparison o);
      destruct (allowObjectEqualComparison o');
      try (specialize (Hobj eq_refl); discriminate Hobj);
      destruct (allowStringOrderComparison o);
      destruct (allowStringOrderComparison o');
      try (specialize (Hstr eq_refl); discriminate Hstr);
      repeat match goal with
             | |- context [if ?b then _ else _] => destruct b
             end; auto.
  - unfold BinaryExpression. rewrite Hc. left. reflexivity.
Qed.

Lemma X13_witness :
  run (mkConfig true false) (compare "===" object_type object_type) = []
  \/ run (mkConfig true false) (compare "===" object_type object_type)
     = run default_options (compare "===" object_type object_type).
Proof.
  apply (X13_options_only_silence sample_TypeFlags default_options
           (mkConfig true false) tsType (fun t => t)
           (compare "===" object_type object_type));
    simpl; intros H; discriminate H || reflexivity.
Defined.

(** X14. Equality is the more permissive class: if an ordering operator
    on two operands raises no diagnostic, no equality operator on the same
    operands does, under the same options. *)
Theorem X14_ordering_allowed_implies_equality_allowed
    (ts : TypeFlags) (options : Config) (Expr : Type)
    (typeAtLocation : Expr -> tsType) (l r : Expr) (ord eq : string) :
  operatorClass ord = Some Ordering ->
  operatorClass eq = Some Equality ->
  reports (snd (BinaryExpression ts options typeAtLocation
                  (mkBinaryExpression ord l r))) = [] ->
  reports (snd (BinaryExpression ts options typeAtLocation
                  (mkBinaryExpression eq l r))) = [].
Proof.
  intros Hord Heq.
  destruct (operatorClass_Ordering _ Hord) as [Ho1 Ho2].
  destruct (operatorClass_Equality _ Heq) as [He1 He2].
  rewrite (BinaryExpression_comparison ts options Expr typeAtLocation
             (mkBinaryExpression ord l r) Ho2),
          (BinaryExpression_comparison ts options Expr typeAtLocation
             (mkBinaryExpression eq l r) He2).
  cbn [left right operator].
  destruct (getStrictestComparableType _ _) as [operandKind|];
    [|intros H; discriminate H].
  unfold checkOperandKind, report_invalidTypeForOperator, call, ret.
  cbn [operator]. rewrite Ho1, He1.
  destruct (is_case operandKind Any); destruct (is_case operandKind Number);
    destruct (is_case operandKind String); cbn [orb];
    try reflexivity;
    try (rewrite ?orb_true_r; reflexivity);
    try (destruct (allowStringOrderComparison options); intros H;
         discriminate H);
    intros H; discriminate H.
Qed.

Lemma X14_witness :
  operatorClass "<" = Some Ordering /\ operatorClass "!==" = Some Equality
  /\ run default_options (compare "<" number_type number_type) = []
  /\ run default_options (compare "!==" number_type number_type) = [].
Proof.
  split; [reflexivity|]. split; [reflexivity|]. split; [reflexivity|].
  apply (X14_ordering_allowed_implies_equality_allowed sample_TypeFlags
           default_options tsType (fun t => t) number_type number_type
           "<" "!=="); reflexivity.
Defined.

(** X15. An operand kind that is the number of no Kind falls to the
    [default] branch of both [switch] statements: the rule reports
    [invalidTypeForOperator] once, whatever the operator and the options,
    and the report names no type. *)
Theorem X15_unknown_kind_always_reported
    (options : Config) (Expr : Type) (n : BinaryExpressionNode Expr)
    (operandKind : number) :
  (forall k, operandKind <> kind_number k) ->
  checkOperandKind options n operandKind
  = (tt, [context_report
            {| node := n;
               messageId := invalidTypeForOperator;
               data := [ ("comparator"%string, Some (operator n));
                         ("type"%string, None) ] |}]).
Proof.
  intros H.
  assert (Hcase : forall k, is_case operandKind k = false).
  { intros k. unfold is_case. destruct (number_eqb operandKind (kind_number k)) eqn:E;
      [|reflexivity].
    exfalso. apply (H k). unfold kind_number in *.
    destruct operandKind as [|z]; [discriminate E|].
    simpl in E. apply Z.eqb_eq in E. subst z. reflexivity. }
  assert (Hname : typeNames operandKind = None).
  { destruct operandKind as [|z]; [reflexivity|].
    destruct (lookup typeNames_table z) as [s|] eqn:El;
      [|unfold typeNames; exact El].
    exfalso. unfold typeNames_table in El. cbn [lookup TypeKind_value] in El.
    repeat match type of El with
           | context [?a =? z] =>
               let E := fresh "E" in
               destruct (a =? z) eqn:E;
               [apply Z.eqb_eq in E; subst z|]
           end; try discriminate El.
    - exact (H Any eq_refl).
    - exact (H Number eq_refl).
    - exact (H Enum eq_refl).
    - exact (H String eq_refl).
    - exact (H Boolean eq_refl).
    - exact (H NullOrUndefined eq_refl).
    - exact (H Object eq_refl). }
  unfold checkOperandKind, report_invalidTypeForOperator, call.
  rewrite !Hcase, Hname. cbn [orb].
  destruct (isEqualityOperator (operator n)); reflexivity.
Qed.

Lemma X15_witness :
  (forall k, NegInfinity <> kind_number k)
  /\ reports (snd (checkOperandKind default_options
                     (compare "==" number_type number_type) NegInfinity))
     = [ {| node := compare "==" number_type number_type;
            messageId := invalidTypeForOperator;
            data := [ ("comparator"%string, Some "=="%string);
                      ("type"%string, None) ] |} ].
Proof.
  assert (H : forall k, NegInfinity <> kind_number k)
    by (intros k E; discriminate E).
  split; [exact H|].
  rewrite (X15_unknown_kind_always_reported default_options tsType
             (compare "==" number_type number_type) NegInfinity H).
  reflexivity.
Defined.

Lemma checkOperandKind_messageId (options : Config) (Expr : Type)
    (n : BinaryExpressionNode Expr) (operandKind : number)
    (d : ReportDescriptor Expr) :
  In d (reports (snd (checkOperandKind options n operandKind))) ->
  messageId d = invalidTypeForOperator.
Proof.
  unfold checkOperandKind, report_invalidTypeForOperator, call, ret.
  repeat match goal with
         | |- context [if ?b then _ else _] => destruct b
         end; simpl; intros H;
    first [contradiction | destruct H as [<- | []]; reflexivity].
Qed.

(** X24. Two operands of the same type are never reported as
    incomparable: whatever diagnostic the comparison raises is an
    [invalidTypeForOperator]. *)
Theorem X24_same_type_never_incomparable
    (ts : TypeFlags) (options : Config) (Expr : Type)
    (typeAtLocation : Expr -> tsType) (n : BinaryExpressionNode Expr)
    (d : ReportDescriptor Expr) :
  typeAtLocation (left n) = typeAtLocation (right n) ->
  union_wf ts (typeAtLocation (left n)) ->
  In d (reports (snd (BinaryExpression ts options typeAtLocation n))) ->
  messageId d = invalidTypeForOperator.
Proof.
  intros Heq Hwf.
  destruct (isComparisonOperator (operator n)) eqn:Hc.
  - rewrite (BinaryExpression_comparison ts options Expr typeAtLocation n Hc).
    rewrite <- Heq.
    destruct (resolver_self _ (getKinds_nonempty ts _ Hwf)) as [E _].
    rewrite E. apply checkOperandKind_messageId.
  - unfold BinaryExpression. rewrite Hc. intros [].
Qed.

Lemma X24_witness :
  union_wf sample_TypeFlags object_type
  /\ In (rejection (compare "<" object_type object_type) Object)
        (run default_options (compare "<" object_type object_type))
  /\ messageId (rejection (compare "<" object_type object_type) Object)
     = invalidTypeForOperator.
Proof.
  split; [intros H; discriminate H|]. split; [left; reflexivity|].
  apply (X24_same_type_never_incomparable sample_TypeFlags default_options
           tsType (fun t => t) (compare "<" object_type object_type)).
  - reflexivity.
  - intros E. discriminate E.
  - left. reflexivity.
Defined.

End StrictComparisonsProofs.

(* ================================================================= *)
(** ** Properties of class-name-casing.ts *)
(* ================================================================= *)

Module ClassNameCasingProofs.
Import ClassNameCasing Spec.

(** *** The matcher against the language of the expression *)

Lemma append_empty (s1 s2 : string) :
  String.append s1 s2 = EmptyString -> s1 = EmptyString /\ s2 = EmptyString.
Proof. destruct s1; simpl; intros H; [auto | discriminate H]. Qed.

Lemma append_cons (s1 s2 s : string) (c : ascii) :
  String.append s1 s2 = String.String c s ->
  (s1 = EmptyString /\ s2 = String.String c s)
  \/ exists s1', s1 = String.String c s1' /\ s = String.append s1' s2.
Proof.
  destruct s1 as [|c1 s1']; simpl; intros H.
  - left. auto.
  - right. injection H as -> <-. exists s1'. auto.
Qed.

Lemma Matches_empty_nullable (r : regex) (s : string) :
  Matches r s -> s = EmptyString -> nullable r = true.
Proof.
  induction 1; intros Hs; simpl; try reflexivity; try discriminate Hs.
  - apply append_empty in Hs. destruct Hs as [-> ->].
    rewrite IHMatches1, IHMatches2; reflexivity.
  - rewrite (IHMatches Hs). reflexivity.
  - rewrite (IHMatches Hs). apply orb_true_r.
Qed.

Lemma nullable_Matches (r : regex) :
  nullable r = true <-> Matches r EmptyString.
Proof.
  split.
  - induction r; simpl; intros H; try discriminate H.
    + constructor.
    + apply andb_true_iff in H. destruct H as [H1 H2].
      apply (MCat r1 r2 EmptyString EmptyString); auto.
    + apply orb_true_iff in H. destruct H as [H | H];
        [apply MAltL | apply MAltR]; auto.
    + constructor.
  - intros H. apply (Matches_empty_nullable r EmptyString H). reflexivity.
Qed.

Lemma deriv_sound (c : ascii) (r : regex) :
  forall s, Matches (deriv c r) s -> Matches r (String.String c s).
Proof.
  induction r; simpl; intros s H.
  - inversion H.
  - inversion H.
  - destruct (in_class ranges c) eqn:E; inversion H; subst.
    constructor. exact E.
  - destruct (nullable r1) eqn:En.
    + inversion H; subst.
      * match goal with
        | Hc : Matches (Cat _ _) _ |- _ => inversion Hc; subst
        end.
        apply (MCat r1 r2 (String.String c s1) s2); auto.
      * apply (MCat r1 r2 EmptyString (String.String c s)); auto.
        apply nullable_Matches, En.
    + inversion H; subst.
      apply (MCat r1 r2 (String.String c s1) s2); auto.
  - inversion H; subst; [apply MAltL | apply MAltR]; auto.
  - inversion H; subst.
    apply (MStarApp r (String.String c s1) s2); auto.
Qed.

Lemma deriv_complete (c : ascii) (r : regex) (w : string) :
  Matches r w -> forall s, w = String.String c s -> Matches (deriv c r) s.
Proof.
  induction 1; intros s' Hw; simpl; try discriminate Hw.
  - injection Hw as -> <-. rewrite H. constructor.
  - apply append_cons in Hw.
    destruct Hw as [[-> ->] | [s1' [-> ->]]].
    + rewrite (Matches_empty_nullable r1 EmptyString H eq_refl).
      apply MAltR. apply IHMatches2. reflexivity.
    + assert (Hc : Matches (Cat (deriv c r1) r2) (String.append s1' s2))
        by (constructor; auto).
      destruct (nullable r1); [apply MAltL|]; exact Hc.
  - apply MAltL. apply IHMatches, Hw.
  - apply MAltR. apply IHMatches, Hw.
  - apply append_cons in Hw.
    destruct Hw as [[-> ->] | [s1' [-> ->]]].
    + apply IHMatches2. reflexivity.
    + constructor; auto.
Qed.

Lemma RegExp_test_Matches (s : string) :
  forall r, RegExp_test r s = true <-> Matches r s.
Proof.
  induction s as [|c s IH]; intros r; simpl.
  - apply nullable_Matches.
  - rewrite IH. split.
    + apply deriv_sound.
    + intros H. apply (deriv_complete c r _ H). reflexivity.
Qed.

(** *** The language of the rule's pattern *)

Lemma in_class_upper (c : ascii) :
  in_class [("A"%char, "Z"%char)] c = true <-> upper c.
Proof.
  unfold in_class, in_range, upper. simpl existsb.
  rewrite orb_false_r, andb_true_iff, !N.leb_le. reflexivity.
Qed.

Lemma in_class_alphanumeric (c : ascii) :
  in_class [("0"%char, "9"%char); ("A"%char, "Z"%char); ("a"%char, "z"%char)] c
  = true <-> alphanumeric c.
Proof.
  unfold in_class, in_range, alphanumeric. simpl existsb.
  rewrite orb_false_r, !orb_true_iff, !andb_true_iff, !N.leb_le. reflexivity.
Qed.

Lemma Matches_Star_Class (ranges : list (ascii * ascii)) (r : regex) (s : string) :
  Matches r s -> r = Star (Class ranges) ->
  all_chars (fun c => in_class ranges c = true) s.
Proof.
  induction 1; intros Hr; try discriminate Hr.
  - exact I.
  - injection Hr as ->. inversion H; subst. simpl. split; auto.
Qed.

Lemma all_chars_Star_Class (ranges : list (ascii * ascii)) (s : string) :
  all_chars (fun c => in_class ranges c = true) s ->
  Matches (Star (Class ranges)) s.
Proof.
  induction s as [|c s IH]; simpl; intros H.
  - constructor.
  - destruct H as [Hc Hs].
    apply (MStarApp (Class ranges) (String.String c EmptyString) s); auto.
    constructor. exact Hc.
Qed.

Lemma all_chars_iff (P Q : ascii -> Prop) (s : string) :
  (forall c, P c <-> Q c) -> all_chars P s <-> all_chars Q s.
Proof.
  intros H. induction s as [|c s IH]; simpl; [tauto|].
  rewrite (H c), IH. reflexivity.
Qed.

Lemma Matches_PascalCase_pattern (s : string) :
  Matches PascalCase_pattern s <-> PascalCased s.
Proof.
  unfold PascalCase_pattern. split.
  - intros H. inversion H as [ | | r1 r2 s1 s2 H1 H2 | | | | ]; subst.
    inversion H1; subst. simpl. split.
    + apply in_class_upper. assumption.
    + apply (all_chars_iff _ _ _ in_class_alphanumeric).
      apply (Matches_Star_Class _ _ _ H2). reflexivity.
  - destruct s as [|c rest]; simpl; [intros []|]. intros [Hc Hrest].
    apply (MCat _ _ (String.String c EmptyString) rest).
    + constructor. apply in_class_upper, Hc.
    + apply all_chars_Star_Class.
      apply (all_chars_iff _ _ _ in_class_alphanumeric), Hrest.
Qed.

(** [isPascalCase] accepts exactly the names in the language of
    [^[A-Z][0-9A-Za-z]*$]: an upper-case letter, then letters and digits. *)
Lemma isPascalCase_spec (s : string) :
  (isPascalCase (Some s) = true <-> Matches PascalCase_pattern s)
  /\ (isPascalCase (Some s) = true <-> PascalCased s).
Proof.
  unfold isPascalCase, ToString. rewrite RegExp_test_Matches.
  split; [reflexivity | apply Matches_PascalCase_pattern].
Qed.

Lemma isPascalCase_false (s : string) :
  isPascalCase (Some s) = false <-> ~ Matches PascalCase_pattern s.
Proof.
  destruct (isPascalCase_spec s) as [H _].
  destruct (isPascalCase (Some s)); split; intros H1.
  - discriminate H1.
  - exfalso. apply H1, H. reflexivity.
  - intros H2. apply H in H2. discriminate H2.
  - reflexivity.
Qed.


(** *** The listeners *)

Ltac decide_casing i :=
  let E := fresh "E" in
  destruct (isPascalCase (Some (Identifier_name i))) eqn:E;
  [ apply (proj1 (isPascalCase_spec _)) in E | apply isPascalCase_false in E ].

(** A class or interface with a name of its own is reported exactly when
    the name is not in the language of the pattern, under its friendly
    name and with that name. *)
Lemma named_declaration_checked (n : Node) (i : Identifier) :
  matches_class_or_interface n = true ->
  Node_id n = Some (PIdentifier i) ->
  (Matches PascalCase_pattern (Identifier_name i) -> visit n = Some [])
  /\ (~ Matches PascalCase_pattern (Identifier_name i) ->
      visit n = Some [casing_report n i]).
Proof.
  intros Hsel Hid. unfold visit. rewrite Hsel.
  assert (Hv : matches_VariableDeclarator n = false)
    by (destruct n; try discriminate Hsel; reflexivity).
  rewrite Hv. unfold on_class_or_interface, report. rewrite Hid.
  cbn [Pattern_name]. decide_casing i; cbn [negb].
  - split; [reflexivity | intros H; contradiction].
  - split; [intros H; contradiction|]. intros _.
    destruct n as [id a | id a | id | |]; try discriminate Hsel;
      destruct id as [j|]; try discriminate Hid;
      injection Hid as ->; try destruct a; reflexivity.
Qed.

(** A class or interface without a name of its own raises nothing by
    itself. *)
Lemma unnamed_declaration_silent (n : Node) :
  matches_class_or_interface n = true -> Node_id n = None -> visit n = Some [].
Proof.
  intros Hsel Hid. unfold visit. rewrite Hsel.
  assert (Hv : matches_VariableDeclarator n = false)
    by (destruct n; try discriminate Hsel; reflexivity).
  rewrite Hv. unfold on_class_or_interface. rewrite Hid. reflexivity.
Qed.

(** A variable declared by an identifier and initialised with an
    anonymous class expression is checked against the variable's name;
    the class expression adds nothing of its own. *)
Lemma identifier_declarator_checked (x : Identifier) (abstract : bool) :
  let init := ClassExpression None abstract in
  let decl := VariableDeclarator (Some (PIdentifier x)) (Some init) in
  (Matches PascalCase_pattern (Identifier_name x) ->
     visit decl = Some [] /\ traverse decl = Some [])
  /\ (~ Matches PascalCase_pattern (Identifier_name x) ->
     visit decl = Some [casing_report init x]
     /\ traverse decl = Some [casing_report init x]).
Proof.
  intros init decl. subst init decl.
  unfold traverse, visit, on_VariableDeclarator, on_class_or_interface, report.
  cbn [matches_class_or_interface matches_VariableDeclarator Node_id
       option_map Pattern_name app].
  decide_casing x; cbn [negb app].
  - split; [auto | intros H; contradiction].
  - split; [intros H; contradiction|]. intros _.
    destruct abstract; split; reflexivity.
Qed.

(** A class expression that has a name of its own is not checked against
    the variable it is assigned to. *)
Lemma named_class_declarator_silent
    (id : option Pattern) (i : Identifier) (abstract : bool) :
  on_VariableDeclarator
    (VariableDeclarator id (Some (ClassExpression (Some i) abstract)))
  = Some [].
Proof. destruct id; reflexivity. Qed.

(** [export default class {}]: nothing is bound, nothing is reported. *)
Lemma anonymous_class_silent (abstract : bool) :
  traverse (ClassExpression None abstract) = Some [].
Proof. reflexivity. Qed.

Example class_foo_reported :
  traverse (ClassDeclaration (Some (mkIdentifier "foo")) false)
  = Some [ {| node := PIdentifier (mkIdentifier "foo");
              friendlyName := "Class";
              name := Some "foo"%string |} ].
Proof. reflexivity. Qed.

Example class_Foo_accepted :
  traverse (ClassDeclaration (Some (mkIdentifier "Foo")) false) = Some [].
Proof. reflexivity. Qed.

Example const_x_class_reported :
  traverse (VariableDeclarator (Some (PIdentifier (mkIdentifier "x")))
                               (Some (ClassExpression None false)))
  = Some [ {| node := PIdentifier (mkIdentifier "x");
              friendlyName := "Class";
              name := Some "x"%string |} ].
Proof. reflexivity. Qed.

(** C8. The casing rule is meant to report a declaration exactly when
    the identifier bound to it fails [^[A-Z][0-9A-Za-z]*$], and never an
    anonymous class expression to which no identifier is bound.  On
    [var { bar } = class {}] the rule does report: the declarator's target
    is a destructuring pattern, its [name] is [undefined], the test runs on
    the text of [undefined], and the report carries no identifier. *)
Theorem C8_destructured_anonymous_class_reported :
  let decl := VariableDeclarator (Some ObjectPattern)
                                 (Some (ClassExpression None false)) in
  isPascalCase (Pattern_name ObjectPattern) = false
  /\ traverse decl
     = Some [ {| node := ObjectPattern;
                 friendlyName := "Class";
                 name := None |} ].
Proof. split; reflexivity. Qed.

(* ----------------------------------------------------------------- *)
(** *** Further properties of the casing rule *)

(** X16. [isPascalCase] accepts a name exactly when it starts with an
    upper-case ASCII letter and continues with ASCII letters and digits
    only; the empty name and a missing name ([undefined]) are rejected. *)
Theorem X16_isPascalCase_characters (s : string) :
  (isPascalCase (Some s) = true <-> PascalCased s)
  /\ isPascalCase (Some EmptyString) = false
  /\ isPascalCase None = false.
Proof.
  split; [apply isPascalCase_spec|]. split; reflexivity.
Qed.

Lemma visit_reports (n : Node) :
  exists l, visit n = Some l
            /\ (List.length l <= 1)%nat
            /\ forall r, In r l ->
                 In (friendlyName r) ["Class"; "Abstract class"; "Interface"]%string
                 /\ isPascalCase (name r) = false.
Proof.
  assert (Hnil : forall P : ReportDescriptor -> Prop,
             (List.length (@nil ReportDescriptor) <= 1)%nat
             /\ forall r, In r [] -> P r).
  { intros P. split; [simpl; lia | intros r []]. }
  destruct n as [id a | id a | id | id init | ty].
  - destruct id as [i|]; [|exists []; split; [reflexivity | apply Hnil]].
    unfold visit, on_class_or_interface, report.
    cbn [matches_class_or_interface matches_VariableDeclarator Node_id
         option_map Pattern_name].
    destruct (isPascalCase (Some (Identifier_name i))) eqn:E; cbn [negb].
    + exists []. split; [reflexivity | apply Hnil].
    + eexists. split; [reflexivity|]. split; [simpl; lia|].
      intros r [<- | []]. cbn [friendlyName name]. split; [|exact E].
      destruct a; simpl; tauto.
  - destruct id as [i|]; [|exists []; split; [reflexivity | apply Hnil]].
    unfold visit, on_class_or_interface, report.
    cbn [matches_class_or_interface matches_VariableDeclarator Node_id
         option_map Pattern_name].
    destruct (isPascalCase (Some (Identifier_name i))) eqn:E; cbn [negb].
    + exists []. split; [reflexivity | apply Hnil].
    + eexists. split; [reflexivity|]. split; [simpl; lia|].
      intros r [<- | []]. cbn [friendlyName name]. split; [|exact E].
      destruct a; simpl; tauto.
  - destruct id as [i|]; [|exists []; split; [reflexivity | apply Hnil]].
    unfold visit, on_class_or_interface, report.
    cbn [matches_class_or_interface matches_VariableDeclarator Node_id
         option_map Pattern_name].
    destruct (isPascalCase (Some (Identifier_name i))) eqn:E; cbn [negb].
    + exists []. split; [reflexivity | apply Hnil].
    + eexists. split; [reflexivity|]. split; [simpl; lia|].
      intros r [<- | []]. cbn [friendlyName name]. split; [|exact E].
      simpl; tauto.
  - destruct init as [[cid a | cid a | cid | cid cinit | cty]|];
      try (exists []; split; [reflexivity | apply Hnil]).
    destruct id as [p|]; [|exists []; split; [reflexivity | apply Hnil]].
    destruct cid as [ci|]; [exists []; split; [reflexivity | apply Hnil]|].
    unfold visit, on_VariableDeclarator, report.
    cbn [matches_class_or_interface matches_VariableDeclarator Node_id
         option_map app].
    destruct (isPascalCase (Pattern_name p)) eqn:E; cbn [negb].
    + exists []. split; [reflexivity | apply Hnil].
    + eexists. split; [reflexivity|]. split; [simpl; lia|].
      intros r [<- | []]. cbn [friendlyName name]. split; [|exact E].
      destruct a; simpl; tauto.
  - exists []. split; [reflexivity | apply Hnil].
Qed.

Lemma declarator_exclusive (id : option Pattern) (init : Node)
    (here below : list ReportDescriptor) :
  visit (VariableDeclarator id (Some init)) = Some here ->
  traverse init = Some below ->
  here = [] \/ below = [].
Proof.
  intros Hv Ht.
  destruct init as [cid a | cid a | cid | cid cinit | cty];
    try (left; cbv in Hv; congruence).
  destruct cid as [ci|].
  - left. destruct id; cbv in Hv; congruence.
  - right. cbv in Ht. congruence.
Qed.

Lemma traverse_reports :
  forall n : Node,
  exists l, traverse n = Some l
            /\ (List.length l <= 1)%nat
            /\ forall r, In r l ->
                 In (friendlyName r) ["Class"; "Abstract class"; "Interface"]%string
                 /\ isPascalCase (name r) = false.
Proof.
  fix IH 1. intros n.
  destruct (visit_reports n) as [here [Hv [Hlen HP]]].
  destruct n as [id a | id a | id | id init | ty];
    try (exists here; cbn [traverse]; rewrite Hv; solve [auto]).
  destruct init as [init|];
    [|exists here; cbn [traverse]; rewrite Hv; solve [auto]].
  destruct (IH init) as [below [Hb [Hblen HbP]]].
  exists (here ++ below). cbn [traverse]. rewrite Hv, Hb.
  split; [reflexivity|].
  destruct (declarator_exclusive id init here below Hv Hb) as [-> | ->].
  - cbn [app]. auto.
  - rewrite app_nil_r. auto.
Qed.

(** X17. The traversal never fails: on the nodes their selectors match,
    the listeners read [name] and [init.id] off objects that exist. *)
Theorem X17_traverse_never_fails (n : Node) : traverse n <> None.
Proof.
  destruct (traverse_reports n) as [l [H _]]. rewrite H. discriminate.
Qed.

(** X18. No declaration is reported twice: a declarator and the class
    expression it is initialised with give at most one report together,
    and so does any other node. *)
Theorem X18_at_most_one_report (n : Node) (l : list ReportDescriptor) :
  traverse n = Some l -> (List.length l <= 1)%nat.
Proof.
  intros H. destruct (traverse_reports n) as [l' [H' [Hlen _]]].
  rewrite H in H'. injection H' as <-. exact Hlen.
Qed.

Lemma X18_witness :
  traverse (VariableDeclarator (Some (PIdentifier (mkIdentifier "x")))
              (Some (ClassExpression (Some (mkIdentifier "foo")) false)))
  = Some [ {| node := PIdentifier (mkIdentifier "foo");
              friendlyName := "Class";
              name := Some "foo"%string |} ]
  /\ (1 <= 1)%nat.
Proof.
  split; [reflexivity|].
  apply (X18_at_most_one_report
           (VariableDeclarator (Some (PIdentifier (mkIdentifier "x")))
              (Some (ClassExpression (Some (mkIdentifier "foo")) false)))
           [ {| node := PIdentifier (mkIdentifier "foo");
                friendlyName := "Class";
                name := Some "foo"%string |} ]).
  reflexivity.
Defined.

(** X19. A report's friendly name is always [Class], [Abstract class] or
    [Interface]: the [default] branch of [report], which would print the
    node type, is never reached from the listeners. *)
Theorem X19_friendly_names (n : Node) (l : list ReportDescriptor)
    (r : ReportDescriptor) :
  traverse n = Some l -> In r l ->
  In (friendlyName r) ["Class"; "Abstract class"; "Interface"]%string.
Proof.
  intros H Hr. destruct (traverse_reports n) as [l' [H' [_ HP]]].
  rewrite H in H'. injection H' as <-. apply HP, Hr.
Qed.

Lemma X19_witness :
  In "Abstract class"%string ["Class"; "Abstract class"; "Interface"]%string.
Proof.
  apply (X19_friendly_names
           (ClassDeclaration (Some (mkIdentifier "shape")) true)
           [ {| node := PIdentifier (mkIdentifier "shape");
                friendlyName := "Abstract class";
                name := Some "shape"%string |} ]
           {| node := PIdentifier (mkIdentifier "shape");
              friendlyName := "Abstract class";
              name := Some "shape"%string |}).
  - reflexivity.
  - left. reflexivity.
Defined.

(** X20. The rule never reports a name that passes the test: the name
    carried by a report is rejected by [isPascalCase]. *)
Theorem X20_reported_names_fail_test (n : Node) (l : list ReportDescriptor)
    (r : ReportDescriptor) :
  traverse n = Some l -> In r l -> isPascalCase (name r) = false.
Proof.
  intros H Hr. destruct (traverse_reports n) as [l' [H' [_ HP]]].
  rewrite H in H'. injection H' as <-. apply HP, Hr.
Qed.

Lemma X20_witness : isPascalCase (Some "my_class"%string) = false.
Proof.
  apply (X20_reported_names_fail_test
           (TSInterfaceDeclaration (Some (mkIdentifier "my_class")))
           [ {| node := PIdentifier (mkIdentifier "my_class");
                friendlyName := "Interface";
                name := Some "my_class"%string |} ]
           {| node := PIdentifier (mkIdentifier "my_class");
              friendlyName := "Interface";
              name := Some "my_class"%string |}).
  - reflexivity.
  - left. reflexivity.
Defined.

(** X21. A class declaration, class expression or interface that has a
    name of its own is reported exactly when that name is not PascalCased,
    and the report carries its friendly name and the name. *)
Theorem X21_named_declaration_reported_iff (n : Node) (i : Identifier) :
  matches_class_or_interface n = true ->
  Node_id n = Some (PIdentifier i) ->
  (visit n = Some [] <-> PascalCased (Identifier_name i))
  /\ (visit n = Some [casing_report n i] <-> ~ PascalCased (Identifier_name i)).
Proof.
  intros Hsel Hid.
  destruct (named_declaration_checked n i Hsel Hid) as [Hyes Hno].
  pose proof (Matches_PascalCase_pattern (Identifier_name i)) as Hm.
  destruct (isPascalCase (Some (Identifier_name i))) eqn:E.
  - apply isPascalCase_spec in E.
    assert (Hv : visit n = Some []) by (apply Hyes, Hm, E).
    split; [tauto|]. split; [|tauto].
    rewrite Hv. intros H. discriminate H.
  - apply isPascalCase_false in E.
    assert (Hv : visit n = Some [casing_report n i]) by exact (Hno E).
    split; [|tauto].
    rewrite Hv. split; [intros H; discriminate H | tauto].
Qed.

Lemma X21_witness :
  let n := ClassExpression (Some (mkIdentifier "fooBar")) true in
  matches_class_or_interface n = true
  /\ Node_id n = Some (PIdentifier (mkIdentifier "fooBar"))
  /\ (visit n = Some [casing_report n (mkIdentifier "fooBar")]
      <-> ~ PascalCased "fooBar").
Proof.
  intros n. split; [reflexivity|]. split; [reflexivity|].
  apply (X21_named_declaration_reported_iff n (mkIdentifier "fooBar"));
    reflexivity.
Defined.

(** X22. A class expression that has a name of its own is judged by that
    name alone: assigning it to a variable, whatever the variable's name
    or pattern, changes nothing in what is reported. *)
Theorem X22_named_class_judged_by_own_name
    (id : option Pattern) (i : Identifier) (abstract : bool) :
  traverse (VariableDeclarator id (Some (ClassExpression (Some i) abstract)))
  = traverse (ClassExpression (Some i) abstract).
Proof.
  cbn [traverse]. unfold visit at 1.
  cbn [matches_class_or_interface matches_VariableDeclarator].
  rewrite named_class_declarator_silent. cbn [app].
  destruct (visit (ClassExpression (Some i) abstract)); reflexivity.
Qed.

(** X23. A variable declared by an identifier and initialised with an
    anonymous class expression is reported exactly when the variable's
    name is not PascalCased; the report is the only one, names the class
    kind and carries the variable's name. *)
Theorem X23_anonymous_class_judged_by_variable
    (x : Identifier) (abstract : bool) :
  let init := ClassExpression None abstract in
  let decl := VariableDeclarator (Some (PIdentifier x)) (Some init) in
  (traverse decl = Some [] <-> PascalCased (Identifier_name x))
  /\ (traverse decl = Some [casing_report init x]
      <-> ~ PascalCased (Identifier_name x)).
Proof.
  intros init decl.
  destruct (identifier_declarator_checked x abstract) as [Hyes Hno].
  fold init decl in Hyes, Hno.
  pose proof (Matches_PascalCase_pattern (Identifier_name x)) as Hm.
  destruct (isPascalCase (Some (Identifier_name x))) eqn:E.
  - apply isPascalCase_spec in E.
    assert (Hv : traverse decl = Some []) by (apply Hyes, Hm, E).
    split; [tauto|]. split; [|tauto].
    rewrite Hv. intros H. discriminate H.
  - apply isPascalCase_false in E.
    assert (Hv : traverse decl = Some [casing_report init x])
      by (apply Hno, E).
    split; [|tauto].
    rewrite Hv. split; [intros H; discriminate H | tauto].
Qed.

End ClassNameCasingProofs.
